(** * Relevance filtering and bounded-concurrency assembly

    A shallow embedding of the documentation-filtering pipeline
    ([FilterService], [FormatterService], [CodeRulesHandler.processRequest])
    together with the properties its specification states about it.

    Conventions of the embedding:
    - a JavaScript string is the list of its UTF-16 code units ([jsstring]);
      [length], [charCodeAt] and concatenation are then those of lists;
    - a JavaScript number is an IEEE-754 binary64 value ([spec_float]);
    - [console.error] only writes to the diagnostic stream and is left out;
    - a JavaScript exception is the [None] of an [option];
    - the text-generation oracle ([generateText]) and [JSON.parse] are
      parameters of the development: every theorem holds for all of them. *)

From Stdlib Require Import ZArith Ascii Sorted Floats.SpecFloat.
From stdpp Require Import gmap strings list pretty relations.

Open Scope Z_scope.
Open Scope list_scope.

(** ** JavaScript strings and numbers *)

Definition char16 := N.
Definition jsstring := list char16.

(** An ASCII literal of the source, as a list of code units. *)
Fixpoint lit (s : string) : jsstring :=
  match s with
  | EmptyString => []
  | String a s' => N_of_ascii a :: lit s'
  end.

Definition number := spec_float.

(** The double nearest to an integer (exact below 2^53). *)
Definition number_of_Z (z : Z) : number := binary_normalize 53 1024 z 0 false.

(** [`${n}`] for an integral number [n]. *)
Definition decimal (z : Z) : jsstring := lit (pretty z).

(** [Array.prototype.join]. *)
Fixpoint join (sep : jsstring) (parts : list jsstring) : jsstring :=
  match parts with
  | [] => []
  | [p] => p
  | p :: rest => p ++ sep ++ join sep rest
  end.

(** WhiteSpace and LineTerminator code points, as [String.prototype.trim]
    removes them. *)
Definition isWhiteSpace (c : char16) : bool :=
  let inside lo hi := (N.leb lo c && N.leb c hi)%bool in
  (inside 9 13 || N.eqb c 32 || N.eqb c 160 || N.eqb c 5760
   || inside 8192 8202 || N.eqb c 8232 || N.eqb c 8233 || N.eqb c 8239
   || N.eqb c 8287 || N.eqb c 12288 || N.eqb c 65279)%N%bool.

Fixpoint trimStart (s : jsstring) : jsstring :=
  match s with
  | [] => []
  | c :: s' => if isWhiteSpace c then trimStart s' else s
  end.

Definition trim (s : jsstring) : jsstring :=
  rev (trimStart (rev (trimStart s))).

Definition jsstring_eqb (a b : jsstring) : bool := bool_decide (a = b).

(** ** Data model (schema.ts) *)

Record DocMetadata := {
  filename : jsstring;
  path : jsstring;
  title : option jsstring;
  tags : option (list jsstring);
  relevanceScore : option number
}.

Record RelevantContent := {
  file : jsstring;
  content : jsstring
}.

(** ** FormatterService (formatter.ts) *)

Module FormatterService.

(** [`## ${item.file}\n\n${item.content}\n\n`] *)
Definition section (item : RelevantContent) : jsstring :=
  lit "## " ++ file item ++ lit "

" ++ content item ++ lit "

".

Definition separator : jsstring := lit "---

".

Definition placeholder : jsstring :=
  lit "No relevant documentation found for this task.".

Definition formatOutput (contents : list RelevantContent) : jsstring :=
  if (length contents =? 0)%nat then placeholder
  else join separator (map section contents).

End FormatterService.

(** ** CodeRulesService (tools/code-rules/service.ts), the earlier
    single-class pipeline: its private formatter has no empty-list case. *)

Module CodeRulesService.

Definition formatOutput (contents : list RelevantContent) : jsstring :=
  join (lit "---

") (map FormatterService.section contents).

End CodeRulesService.

(** ** JavaScript values, as [JSON.parse] and property access produce them *)

#[warnings="-register-all"]
Inductive value :=
  | JUndefined
  | JNull
  | JBool (b : bool)
  | JNumber (x : number)
  | JString (s : jsstring)
  | JArray (items : list value)
  | JObject (props : list (jsstring * value)).

(** Own property of an object literal; [JSON.parse] leaves one entry per key. *)
Fixpoint lookupProp (k : jsstring) (props : list (jsstring * value)) : value :=
  match props with
  | [] => JUndefined
  | (k', v) :: rest => if jsstring_eqb k k' then v else lookupProp k rest
  end.

(** [v.k] for a property name [k] that is neither [length] nor an index:
    a TypeError on [null] and [undefined], [undefined] on the other
    primitives and on arrays. *)
Definition getProp (v : value) (k : jsstring) : option value :=
  match v with
  | JUndefined | JNull => None
  | JObject props => Some (lookupProp k props)
  | JBool _ | JNumber _ | JString _ | JArray _ => Some JUndefined
  end.

(** [v === n] for a number [n]. *)
Definition strictEqNumber (v : value) (n : number) : bool :=
  match v with
  | JNumber x => SFeqb x n
  | _ => false
  end.

(** [v !== false]. *)
Definition strictNeFalse (v : value) : bool :=
  match v with
  | JBool false => false
  | _ => true
  end.

(** ToBoolean. *)
Definition truthy (v : value) : bool :=
  match v with
  | JUndefined | JNull => false
  | JBool b => b
  | JNumber x =>
      match x with
      | S754_zero _ | S754_nan => false
      | _ => true
      end
  | JString s => negb (jsstring_eqb s [])
  | JArray _ | JObject _ => true
  end.

(** [Array.prototype.find] with a callback that may throw; [undefined]
    when no element satisfies it. *)
Fixpoint arrayFind (pred : value -> option bool) (items : list value)
  : option value :=
  match items with
  | [] => Some JUndefined
  | item :: rest =>
      match pred item with
      | None => None
      | Some true => Some item
      | Some false => arrayFind pred rest
      end
  end.

(** [Array.prototype.filter] with a callback [(element, index)] that may
    throw; [index] is the position of the head of [l]. *)
Fixpoint arrayFilter {A} (cb : A -> nat -> option bool) (index : nat)
  (l : list A) : option (list A) :=
  match l with
  | [] => Some []
  | x :: rest =>
      match cb x index with
      | None => None
      | Some keep =>
          match arrayFilter cb (S index) rest with
          | None => None
          | Some kept => Some (if keep then x :: kept else kept)
          end
      end
  end.

(** ** FilterService (filter-service.ts) *)

Module FilterService.

(** The argument of one [generateText] call. *)
Record request := {
  prompt : jsstring;
  temperature : Z;
  maxTokens : option Z
}.

(** The service object: its cache, and the requests sent to the oracle so
    far (a ghost field that counts the calls). *)
Record service := {
  taskCache : gmap jsstring jsstring;
  oracleCalls : list request
}.


Definition toInt32 (z : Z) : Z := (z + 2 ^ 31) mod 2 ^ 32 - 2 ^ 31.

(** [hash = ((hash << 5) - hash) + str.charCodeAt(i); hash |= 0] *)
Definition simpleHash (str : jsstring) : Z :=
  fold_left
    (fun hash c => toInt32 ((toInt32 (Z.shiftl hash 5) - hash) + Z.of_N c))
    str 0.

Definition createCacheKey (content task : jsstring) : jsstring :=
  let contentHash := simpleHash content in
  let taskHash := simpleHash task in
  decimal contentHash ++ lit ":" ++ decimal taskHash.

(** [{ ...file, relevanceScore: 1.0 }] *)
Definition stamp (f : DocMetadata) : DocMetadata :=
  {| filename := filename f; path := path f; title := title f;
     tags := tags f; relevanceScore := Some (number_of_Z 1) |}.

Definition fileInfo (index : nat) (f : DocMetadata) : jsstring :=
  let tagsText :=
    match tags f with
    | Some ts => lit "tags: [" ++ join (lit ", ") ts ++ lit "]"
    | None => []
    end in
  let titleText :=
    match title f with
    | Some t => if jsstring_eqb t [] then [] else lit "- " ++ t
    | None => []
    end in
  lit "File " ++ decimal (Z.of_nat (index + 1)) ++ lit ": " ++ filename f
    ++ lit " " ++ titleText ++ lit " " ++ tagsText.

Definition filesPrompt (files : list DocMetadata) (task : jsstring)
  : jsstring :=
  let fileInfos := join (lit "
") (imap fileInfo files) in
  lit "Task: " ++ task ++ lit "
Files:
" ++ fileInfos ++ lit "

KEEP files that contain relevant information, including:
- Files that directly relate to the task
- Files with general rules or guidelines that apply broadly
- Files that contain architectural principles or coding standards
- Files that might provide context for the task

Exclude files that are not relevant to the task.

Return a JSON array with objects containing:
1. fileIndex (1-based index)
2. include (boolean)
3. reasoning (brief)".

Definition contentPrompt (content task : jsstring) : jsstring :=
  lit "Task: " ++ task ++ lit "

Doc content:
```
" ++ content ++ lit "
```

Process this doc by:
1. KEEP most content by default
2. KEEP ALL code examples, structures, config samples
3. KEEP all principles, guidelines, standards
4. KEEP architectural information
5. ONLY remove CLEARLY IRRELEVANT sections
6. Maintain original formatting and structure

If uncertain about relevance, keep it.
Do not comment on why something was included or excluded.

Your format should be raw markdown as-is without any additional text or formatting.
Do not wrap the content in triple backtick fenced code blocks.
If nothing is relevant, return an empty string.".

Definition filesRequest (files : list DocMetadata) (task : jsstring)
  : request :=
  {| prompt := filesPrompt files task; temperature := 0;
     maxTokens := Some 1024 |}.

Definition contentRequest (content task : jsstring) : request :=
  {| prompt := contentPrompt content task; temperature := 0;
     maxTokens := None |}.

(** [text.match(/\[.*\]/s)]: from the first opening bracket that has a
    closing bracket after it, up to the last closing bracket. *)
Fixpoint afterFirstOpen (s : jsstring) : option jsstring :=
  match s with
  | [] => None
  | c :: s' => if N.eqb c 91 then Some s' else afterFirstOpen s'
  end.

Fixpoint throughLastClose (s : jsstring) : option jsstring :=
  match s with
  | [] => None
  | c :: s' =>
      match throughLastClose s' with
      | Some p => Some (c :: p)
      | None => if N.eqb c 93 then Some [c] else None
      end
  end.

Definition jsonMatch (text : jsstring) : option jsstring :=
  match afterFirstOpen text with
  | None => None
  | Some rest =>
      match throughLastClose rest with
      | None => None
      | Some body => Some (91%N :: body)
      end
  end.

(** [filterData.find((item) => item.fileIndex === index + 1)] *)
Definition findVerdict (filterData : value) (index : nat) : option value :=
  match filterData with
  | JArray items =>
      arrayFind
        (fun item =>
           match getProp item (lit "fileIndex") with
           | None => None
           | Some v =>
               Some (strictEqNumber v (number_of_Z (Z.of_nat (index + 1))))
           end)
        items
  | _ => None
  end.

(** The callback of [files.filter]:
    [!fileData || fileData.include !== false]. *)
Definition keepFile (filterData : value) (f : DocMetadata) (index : nat)
  : option bool :=
  match findVerdict filterData index with
  | None => None
  | Some fileData =>
      if negb (truthy fileData) then Some true
      else
        match getProp fileData (lit "include") with
        | None => None
        | Some inc => Some (strictNeFalse inc)
        end
  end.

(** [files.filter(...).map(file => ({...file, relevanceScore: 1.0}))] *)
Definition applyVerdicts (files : list DocMetadata) (filterData : value)
  : option (list DocMetadata) :=
  match arrayFilter (keepFile filterData) 0%nat files with
  | None => None
  | Some kept => Some (map stamp kept)
  end.

(** The part of [filterRelevantContent] that runs before the oracle is
    awaited: either the value returned, or the cache key and request. *)
Definition contentBeforeAwait (cache : gmap jsstring jsstring)
  (content task : jsstring) : jsstring + jsstring * request :=
  if (jsstring_eqb content [] || jsstring_eqb (trim content) [])%bool
  then inl []
  else
    let cacheKey := createCacheKey content task in
    match cache !! cacheKey with
    | Some cached => inl cached
    | None =>
        if (length content <? 500)%nat then inl content
        else inr (cacheKey, contentRequest content task)
    end.

(** The part that runs once the oracle call has settled. *)
Definition contentAfterAwait (cache : gmap jsstring jsstring)
  (cacheKey content : jsstring) (response : option jsstring)
  : jsstring * gmap jsstring jsstring :=
  match response with
  | Some text => (text, <[cacheKey := text]> cache)
  | None => (content, cache)
  end.

Section WithOracle.

(** The oracle: what [generateText] answers to a request, given the
    requests made before it; [None] when the call throws. *)
Variable generateText : list request -> request -> option jsstring.

(** [JSON.parse]; [None] when it throws. *)
Variable JSON_parse : jsstring -> option value.

Definition callOracle (req : request) (st : service)
  : option jsstring * service :=
  (generateText (oracleCalls st) req,
   {| taskCache := taskCache st;
      oracleCalls := oracleCalls st ++ [req] |}).

Definition filterRelevantFiles (files : list DocMetadata)
  (task : jsstring) (st : service)
  : list DocMetadata * service :=
  if (length files =? 0)%nat then ([], st)
  else if (length files <=? 3)%nat then (map stamp files, st)
  else
    let '(response, st') := callOracle (filesRequest files task) st in
    let attempt :=
      match response with
      | None => None
      | Some text =>
          match jsonMatch text with
          | None => Some files
          | Some jsonText =>
              match JSON_parse jsonText with
              | None => None
              | Some filterData => applyVerdicts files filterData
              end
          end
      end in
    match attempt with
    | Some result => (result, st')
    | None => (files, st')
    end.

Definition filterRelevantContent (content task : jsstring)
  (st : service) : jsstring * service :=
  match contentBeforeAwait (taskCache st) content task with
  | inl result => (result, st)
  | inr (cacheKey, req) =>
      let '(response, st') := callOracle req st in
      let '(result, cache') :=
        contentAfterAwait (taskCache st') cacheKey content response in
      (result, {| taskCache := cache'; oracleCalls := oracleCalls st' |})
  end.

End WithOracle.

End FilterService.

(** ** CodeRulesHandler.processRequest: the content stage

    [relevantFiles.map(file => limit(async () => ...))] followed by
    [Promise.all]. Every task has two suspension points: the file read and,
    when the content filter reaches it, the oracle call. The event loop is a
    step relation that picks any enabled continuation, so every completion
    order is a run of it. [Promise.all] stores each value at the index of
    its promise. *)

Module CodeRulesHandler.

(** [pLimit(4)] *)
Definition concurrency : nat := 4.

(** Where a started task is suspended. *)
Inductive phase :=
  | Reading
  | Filtering (rawContent cacheKey : jsstring).

Record sched := {
  cache : gmap jsstring jsstring;
  queue : list nat;
  active : list (nat * phase);
  values : list (option RelevantContent)
}.

(** [Promise.all]: the array of values, once every promise has one. *)
Fixpoint Promise_all (vs : list (option RelevantContent))
  : option (list RelevantContent) :=
  match vs with
  | [] => Some []
  | None :: _ => None
  | Some v :: rest =>
      match Promise_all rest with
      | Some l => Some (v :: l)
      | None => None
      end
  end.

(** Modelled from the spec: the limiter [pLimit] belongs to the p-limit
    package, which is not among the sources. As the scheduler contract has
    it, the operations not yet started wait in a queue, in input order, and
    one more is let in only while fewer than K = [concurrency] are in
    flight. *)
Definition admits (s : sched) : Prop :=
  (length (active s) < concurrency)%nat.

Section processRequest.

(** [FileService.getFileContent]: the text of a file without its header
    block, or an inline error marker; it never throws. *)
Variable getFileContent : jsstring -> jsstring.

Variable relevantFiles : list DocMetadata.
Variable task : jsstring.

(** All [limit(...)] calls are made before any task starts. *)
Definition initial (cache0 : gmap jsstring jsstring) : sched :=
  {| cache := cache0;
     queue := seq 0 (length relevantFiles);
     active := [];
     values := replicate (length relevantFiles) None |}.

Inductive step : sched -> sched -> Prop :=
  | step_start s i q :
      queue s = i :: q ->
      admits s ->
      step s {| cache := cache s; queue := q;
                active := active s ++ [(i, Reading)];
                values := values s |}
  | step_read_return s a1 a2 i f result :
      active s = a1 ++ (i, Reading) :: a2 ->
      relevantFiles !! i = Some f ->
      FilterService.contentBeforeAwait (cache s) (getFileContent (path f))
        task = inl result ->
      step s {| cache := cache s; queue := queue s;
                active := a1 ++ a2;
                values := <[i := Some {| file := filename f;
                                         content := result |}]> (values s) |}
  | step_read_await s a1 a2 i f cacheKey req :
      active s = a1 ++ (i, Reading) :: a2 ->
      relevantFiles !! i = Some f ->
      FilterService.contentBeforeAwait (cache s) (getFileContent (path f))
        task = inr (cacheKey, req) ->
      step s {| cache := cache s; queue := queue s;
                active := a1 ++ (i, Filtering (getFileContent (path f))
                                      cacheKey) :: a2;
                values := values s |}
  | step_oracle s a1 a2 i f rawContent cacheKey response result cache' :
      active s = a1 ++ (i, Filtering rawContent cacheKey) :: a2 ->
      relevantFiles !! i = Some f ->
      FilterService.contentAfterAwait (cache s) cacheKey rawContent response
        = (result, cache') ->
      step s {| cache := cache'; queue := queue s;
                active := a1 ++ a2;
                values := <[i := Some {| file := filename f;
                                         content := result |}]> (values s) |}.

(** A state in which [Promise.all] has nothing left to wait for. *)
Definition finished (s : sched) : Prop := queue s = [] /\ active s = [].

(** The entry of the result array that belongs to file [f]: its filename,
    and the text [filterRelevantContent] returns on its content, for the
    cache it found and the answer the oracle gave it. *)
Definition resultOf (f : DocMetadata) (r : RelevantContent) : Prop :=
  file r = filename f
  /\ exists st response,
       content r
       = fst (FilterService.filterRelevantContent (fun _ _ => response)
                (getFileContent (path f)) task st).

End processRequest.

End CodeRulesHandler.

(** ** Vocabulary of the specification *)

(** [g] is [f] up to its relevance score. *)
Definition sameUpToScore (g f : DocMetadata) : Prop :=
  filename g = filename f /\ path g = path f /\ title g = title f
  /\ tags g = tags f.

(** [g] is [f] stamped with the score 1.0. *)
Definition stampedCopy (f g : DocMetadata) : Prop :=
  sameUpToScore g f /\ relevanceScore g = Some (number_of_Z 1).

Definition whitespaceOnly (s : jsstring) : Prop :=
  Forall (fun c => isWhiteSpace c = true) s.

(** The verdict [item] carries the 1-based index of position [i]. *)
Definition hasIndex (item : value) (i : nat) : bool :=
  match getProp item (lit "fileIndex") with
  | Some v => strictEqNumber v (number_of_Z (Z.of_nat (i + 1)))
  | None => false
  end.

(** The [include] field of [item] is exactly [false]. *)
Definition includeIsFalse (item : value) : Prop :=
  getProp item (lit "include") = Some (JBool false).

(** Some verdict for position [i] says [include: false]. *)
Definition excludedBySomeVerdict (items : list value) (i : nat) : Prop :=
  exists item, item ∈ items /\ hasIndex item i = true /\ includeIsFalse item.

(** The first verdict for position [i] says [include: false]. *)
Definition excludedByFirstVerdict (items : list value) (i : nat) : Prop :=
  exists pre item post,
    items = pre ++ item :: post
    /\ Forall (fun u => hasIndex u i = false) pre
    /\ hasIndex item i = true
    /\ includeIsFalse item.

Definition nullish (v : value) : Prop := v = JNull \/ v = JUndefined.

(** [result] is made of the stamped copies of the files at [positions],
    taken in increasing order: these are the files included, the others
    are excluded. *)
Definition keptAt (files : list DocMetadata) (positions : list nat)
  (result : list DocMetadata) : Prop :=
  StronglySorted lt positions
  /\ Forall2 (fun p g => exists f, files !! p = Some f /\ stampedCopy f g)
       positions result.

(** *** Bookkeeping of the content stage *)

(** The tasks that have no value yet: queued or running. *)
Definition pending (s : CodeRulesHandler.sched) : list nat :=
  CodeRulesHandler.queue s ++ (CodeRulesHandler.active s).*1.

(** Suspension points a task still has to pass. *)
Definition weight (ph : CodeRulesHandler.phase) : nat :=
  match ph with
  | CodeRulesHandler.Reading => 2
  | CodeRulesHandler.Filtering _ _ => 1
  end.

Definition remaining (s : CodeRulesHandler.sched) : nat :=
  3 * length (CodeRulesHandler.queue s)
  + sum_list_with (fun t => weight t.2) (CodeRulesHandler.active s).

(** What holds of every state the content stage can reach. *)
Definition schedInvariant (getFileContent : jsstring -> jsstring)
  (files : list DocMetadata) (task : jsstring) (s : CodeRulesHandler.sched)
  : Prop :=
  length (CodeRulesHandler.values s) = length files
  /\ NoDup (pending s)
  /\ (forall i, i ∈ pending s ->
        (i < length files)%nat /\ CodeRulesHandler.values s !! i = Some None)
  /\ (forall i, (i < length files)%nat -> i ∉ pending s ->
        exists f r,
          files !! i = Some f
          /\ CodeRulesHandler.values s !! i = Some (Some r)
          /\ CodeRulesHandler.resultOf getFileContent task f r)
  /\ (forall i raw cacheKey,
        (i, CodeRulesHandler.Filtering raw cacheKey)
          ∈ CodeRulesHandler.active s ->
        exists f cache0 req,
          files !! i = Some f
          /\ raw = getFileContent (path f)
          /\ FilterService.contentBeforeAwait cache0 raw task
             = inr (cacheKey, req)).

(** Case analysis on a step of the content stage: a start, a read that
    settles the task, a read that leaves it waiting for the oracle, an
    oracle call that settles. *)
Ltac step_cases H :=
  destruct H
    as [s i q Hq Hroom
       | s a1 a2 i f result Hact Hf Hsync
       | s a1 a2 i f cacheKey req Hact Hf Hsync
       | s a1 a2 i f raw cacheKey response result cache' Hact Hf Hasync].

(** The statement of C4 as the specification words it: the files left out
    are those for which some verdict with their index says
    [include: false]. *)
Definition verdictClaim
  (generateText : list FilterService.request -> FilterService.request
                  -> option jsstring)
  (JSON_parse : jsstring -> option value)
  (files : list DocMetadata) (task : jsstring) (st : FilterService.service)
  : Prop :=
  forall text jsonText items,
    (3 < length files)%nat ->
    generateText (FilterService.oracleCalls st)
      (FilterService.filesRequest files task) = Some text ->
    FilterService.jsonMatch text = Some jsonText ->
    JSON_parse jsonText = Some (JArray items) ->
    exists positions,
      keptAt files positions
        (fst (FilterService.filterRelevantFiles generateText JSON_parse
                files task st))
      /\ forall i, (i < length files)%nat ->
                   (i ∉ positions <-> excludedBySomeVerdict items i).

(** The statement of C6 as the specification words it. *)
Definition repeatClaim
  (generateText : list FilterService.request -> FilterService.request
                  -> option jsstring)
  (content task : jsstring) (st : FilterService.service) : Prop :=
  let '(r1, st1) :=
    FilterService.filterRelevantContent generateText content task st in
  let '(r2, st2) :=
    FilterService.filterRelevantContent generateText content task st1 in
  (length (FilterService.oracleCalls st2)
   <= length (FilterService.oracleCalls st) + 1)%nat
  /\ r2 = r1.

(** ** Sample inputs *)

Definition doc (name : string) : DocMetadata :=
  {| filename := lit name; path := lit "/docs/" ++ lit name;
     title := None; tags := None; relevanceScore := None |}.

Definition twoDocs : list DocMetadata := [doc "a.md"; doc "b.md"].

Definition fiveDocs : list DocMetadata :=
  [doc "a.md"; doc "b.md"; doc "c.md"; doc "d.md"; doc "e.md"].

Definition sampleTask : jsstring := lit "refactor logging module".

Definition freshService : FilterService.service :=
  {| FilterService.taskCache := ∅; FilterService.oracleCalls := [] |}.

(** Five hundred times the letter a: long enough to be sent to the oracle. *)
Definition longContent : jsstring := replicate 500 97%N.

Definition failingOracle (calls : list FilterService.request)
  (req : FilterService.request) : option jsstring := None.

Definition answering (text : jsstring) (calls : list FilterService.request)
  (req : FilterService.request) : option jsstring := Some text.

(** An oracle whose first call fails and whose later calls answer. *)
Definition flakyOracle (calls : list FilterService.request)
  (req : FilterService.request) : option jsstring :=
  match calls with
  | [] => None
  | _ => Some (lit "pruned")
  end.

Definition neverParses (text : jsstring) : option value := None.

Definition quoted (s : string) : jsstring := [34%N] ++ lit s ++ [34%N].

Definition verdictText (fileIndex : string) (include : string) : jsstring :=
  lit "{" ++ quoted "fileIndex" ++ lit ":" ++ lit fileIndex ++ lit ","
    ++ quoted "include" ++ lit ":" ++ lit include ++ lit "}".

Definition verdict (fileIndex : Z) (include : bool) : value :=
  JObject [(lit "fileIndex", JNumber (number_of_Z fileIndex));
           (lit "include", JBool include)].

(** Two verdicts for file 1, the first keeping it, the second dropping it. *)
Definition duplicateText : jsstring :=
  lit "[" ++ verdictText "1" "true" ++ lit "," ++ verdictText "1" "false"
    ++ lit "]".

Definition duplicateItems : list value := [verdict 1 true; verdict 1 false].

Definition nullText : jsstring := lit "[null]".

(** One verdict, dropping file 3. *)
Definition dropThirdText : jsstring :=
  lit "Here you go: [" ++ verdictText "3" "false" ++ lit "] Done.".

Definition dropThirdJson : jsstring :=
  lit "[" ++ verdictText "3" "false" ++ lit "]".

(** [JSON.parse] on the three texts above; any other text is refused. *)
Definition sampleParse (text : jsstring) : option value :=
  if jsstring_eqb text duplicateText then Some (JArray duplicateItems)
  else if jsstring_eqb text nullText then Some (JArray [JNull])
  else if jsstring_eqb text dropThirdJson
       then Some (JArray [verdict 3 false])
  else None.

(** A document source in which every file holds the same short text. *)
Definition shortReader (filePath : jsstring) : jsstring := lit "Use tabs.".

Definition shortResult (name : string) : RelevantContent :=
  {| file := lit name; content := lit "Use tabs." |}.

(** Both files of [twoDocs] done. *)
Definition bothDone : CodeRulesHandler.sched :=
  {| CodeRulesHandler.cache := ∅;
     CodeRulesHandler.queue := [];
     CodeRulesHandler.active := [];
     CodeRulesHandler.values :=
       [Some (shortResult "a.md"); Some (shortResult "b.md")] |}.

(** The first four files of [fiveDocs] started, the fifth still queued. *)
Definition fourStarted : CodeRulesHandler.sched :=
  {| CodeRulesHandler.cache := ∅;
     CodeRulesHandler.queue := [4%nat];
     CodeRulesHandler.active :=
       [(0%nat, CodeRulesHandler.Reading); (1%nat, CodeRulesHandler.Reading);
        (2%nat, CodeRulesHandler.Reading); (3%nat, CodeRulesHandler.Reading)];
     CodeRulesHandler.values := replicate 5 None |}.

(** ** Regular expressions

    The patterns of the file service are sequences of literals and of
    quantified character classes, one of which may be the capture group.
    [matchHere] follows the backtracking order of the language: a greedy
    quantifier tries the longest run first, a lazy one the shortest, and the
    first alternative that lets the rest of the pattern match wins. *)

Inductive atom :=
  | Chars (s : jsstring)
  | Repeat (greedy : bool) (least : nat) (class : char16 -> bool)
      (group : bool).

Fixpoint stripPrefix (p s : jsstring) : option jsstring :=
  match p, s with
  | [], _ => Some s
  | a :: p', b :: s' => if N.eqb a b then stripPrefix p' s' else None
  | _ :: _, [] => None
  end.

(** Length of the longest prefix whose code units are all in [class]. *)
Fixpoint run (class : char16 -> bool) (s : jsstring) : nat :=
  match s with
  | c :: s' => if class c then S (run class s') else 0
  | [] => 0
  end.

Fixpoint firstSuccess {A} (attempt : nat -> option A) (counts : list nat)
  : option A :=
  match counts with
  | [] => None
  | k :: rest =>
      match attempt k with
      | Some a => Some a
      | None => firstSuccess attempt rest
      end
  end.

(** A match that starts at the head of [s]: the capture group, if the
    pattern has one, and what is left of [s] after the match. *)
Fixpoint matchHere (p : list atom) (s : jsstring)
  : option (option jsstring * jsstring) :=
  match p with
  | [] => Some (None, s)
  | Chars l :: p' =>
      match stripPrefix l s with
      | Some s' => matchHere p' s'
      | None => None
      end
  | Repeat greedy least class group :: p' =>
      let most := run class s in
      let ascending := seq least (S most - least) in
      firstSuccess
        (fun k =>
           match matchHere p' (drop k s) with
           | Some (g, rest) =>
               Some (if group then Some (take k s) else g, rest)
           | None => None
           end)
        (if greedy then rev ascending else ascending)
  end.

(** [s.match(p)] for a pattern without the global flag: the leftmost
    position at which the pattern matches; the capture group and the
    matched text. *)
Fixpoint exec (p : list atom) (s : jsstring)
  : option (option jsstring * jsstring) :=
  match matchHere p s with
  | Some (g, rest) => Some (g, take (length s - length rest) s)
  | None =>
      match s with
      | [] => None
      | _ :: s' => exec p s'
      end
  end.

(** [\s], [[\s\S]] and [.] *)
Definition anyChar (c : char16) : bool := true.

Definition isLineTerminator (c : char16) : bool :=
  (N.eqb c 10 || N.eqb c 13 || N.eqb c 8232 || N.eqb c 8233)%bool.

Definition dot (c : char16) : bool := negb (isLineTerminator c).

(** [/^---\s*\n([\s\S]*?)\n---\s*\n/], matched at the start of the text;
    the group is not used by [replace]. *)
Definition frontmatterPattern : list atom :=
  [Chars (lit "---"); Repeat true 0 isWhiteSpace false; Chars [10%N];
   Repeat false 0 anyChar true;
   Chars (10%N :: lit "---"); Repeat true 0 isWhiteSpace false;
   Chars [10%N]].

(** [/title:\s*(.+)/] *)
Definition titlePattern : list atom :=
  [Chars (lit "title:"); Repeat true 0 isWhiteSpace false;
   Repeat true 1 dot true].

(** The tags pattern: [tags:], whitespace, and between an opening bracket
    and the last closing bracket of the line a group of any length. *)
Definition tagsPattern : list atom :=
  [Chars (lit "tags:"); Repeat true 0 isWhiteSpace false; Chars (lit "[");
   Repeat true 0 dot true; Chars (lit "]")].

(** [/\[.*\]/s] *)
Definition jsonPattern : list atom :=
  [Chars (lit "["); Repeat true 0 anyChar false; Chars (lit "]")].

(** [String.prototype.split] with a one-unit separator. *)
Fixpoint split (sep : char16) (s : jsstring) : list jsstring :=
  match s with
  | [] => [[]]
  | c :: s' =>
      if N.eqb c sep then [] :: split sep s'
      else
        match split sep s' with
        | part :: parts => (c :: part) :: parts
        | [] => [[c]]
        end
  end.

(** [String.prototype.endsWith] *)
Definition endsWith (s suffix : jsstring) : bool :=
  bool_decide (drop (length s - length suffix) s = suffix).

(** ** file-system.ts and FileService (file-service.ts) *)

(** What a directory entry is: a regular file, a directory with the entries
    [readdir] lists for it ([None] when [readdir] throws), or anything
    else. *)
#[warnings="-register-all"]
Inductive entry :=
  | FileEntry
  | DirEntry (listing : option (list (jsstring * entry)))
  | OtherEntry.

Definition isMarkdown (name : jsstring) : bool :=
  (endsWith name (lit ".md") || endsWith name (lit ".mdc"))%bool.

Module FileService.

Section WithFileSystem.

(** [path.join] and [path.basename] of the runtime. *)
Variable joinPath : jsstring -> jsstring -> jsstring.
Variable basename : jsstring -> jsstring.

(** [fs.readFile(filePath, 'utf-8')]; [None] when it throws, and then
    [readFileContent] throws too. *)
Variable readFileContent : jsstring -> option jsstring.

(** [scanDirectory]: the markdown files under a directory, in the order of
    the walk; [None] when some [readdir] throws. *)
Fixpoint scanEntry (dirPath name : jsstring) (e : entry)
  : option (list jsstring) :=
  let entryPath := joinPath dirPath name in
  match e with
  | DirEntry None => None
  | DirEntry (Some entries) =>
      (fix scanEntries (l : list (jsstring * entry)) :=
         match l with
         | [] => Some []
         | (n, sub) :: l' =>
             match scanEntry entryPath n sub with
             | None => None
             | Some found =>
                 match scanEntries l' with
                 | None => None
                 | Some more => Some (found ++ more)
                 end
             end
         end) entries
  | FileEntry => Some (if isMarkdown name then [entryPath] else [])
  | OtherEntry => Some []
  end.

Fixpoint scanDirectory (dirPath : jsstring) (entries : list (jsstring * entry))
  : option (list jsstring) :=
  match entries with
  | [] => Some []
  | (n, sub) :: l' =>
      match scanEntry dirPath n sub with
      | None => None
      | Some found =>
          match scanDirectory dirPath l' with
          | None => None
          | Some more => Some (found ++ more)
          end
      end
  end.

Definition getMarkdownFiles (docsPath : jsstring)
  (root : option (list (jsstring * entry))) : option (list jsstring) :=
  match root with
  | None => None
  | Some entries => scanDirectory docsPath entries
  end.

Definition minimalMetadata (filePath : jsstring) : DocMetadata :=
  {| filename := basename filePath; path := filePath;
     title := None; tags := None; relevanceScore := None |}.

Definition extractMetadata (filePath : jsstring) : DocMetadata :=
  match readFileContent filePath with
  | None => minimalMetadata filePath
  | Some content =>
      match matchHere frontmatterPattern content with
      | Some (Some frontmatter, _) =>
          {| filename := basename filePath; path := filePath;
             title :=
               match exec titlePattern frontmatter with
               | Some (Some t, _) => Some (trim t)
               | _ => None
               end;
             tags :=
               match exec tagsPattern frontmatter with
               | Some (Some ts, _) => Some (map trim (split 44%N ts))
               | _ => None
               end;
             relevanceScore := None |}
      | _ => minimalMetadata filePath
      end
  end.

(** [content.replace(/^---\s*\n[\s\S]*?\n---\s*\n/, '')] *)
Definition removeFrontmatter (content : jsstring) : jsstring :=
  match matchHere frontmatterPattern content with
  | Some (_, rest) => rest
  | None => content
  end.

Definition getFileContent (filePath : jsstring) : jsstring :=
  match readFileContent filePath with
  | Some content => removeFrontmatter content
  | None => lit "Error: Could not read " ++ filePath
  end.

End WithFileSystem.

End FileService.

(** ** Vocabulary for the remaining code *)

(** The hash without the 32-bit truncation: the digits of the string in
    base 31. *)
Definition polynomial31 (str : jsstring) : Z :=
  fold_left (fun h c => 31 * h + Z.of_N c) str 0.

(** Writes the powers of two of the hash out, for linear arithmetic. *)
Ltac powers_of_two :=
  change (2 ^ 32) with 4294967296 in *;
  change (2 ^ 31) with 2147483648 in *;
  change (2 ^ 5) with 32 in *.

(** The line that closes a header block. *)
Definition fence : jsstring := 10%N :: lit "---".

(** [body] holds no line of three dashes. *)
Definition noFence (body : jsstring) : Prop :=
  forall pre post, body <> pre ++ fence ++ post.

(** [text] is empty or starts with something other than white space. *)
Definition startsWithText (text : jsstring) : Prop :=
  match text with
  | [] => True
  | t :: _ => isWhiteSpace t = false
  end.

(** A file with a header block of the usual form: the opening line, a body
    that starts with text, the closing line, the document. *)
Definition withHeader (body text : jsstring) : jsstring :=
  lit "---" ++ [10%N] ++ body ++ fence ++ [10%N] ++ text.

(** [p] is the path of a markdown file somewhere under the directory
    [dir] with the entries [entries]. *)
Inductive located (joinPath : jsstring -> jsstring -> jsstring)
  : jsstring -> list (jsstring * entry) -> jsstring -> Prop :=
  | located_here dir entries name :
      (name, FileEntry) ∈ entries ->
      isMarkdown name = true ->
      located joinPath dir entries (joinPath dir name)
  | located_below dir entries name sub p :
      (name, DirEntry (Some sub)) ∈ entries ->
      located joinPath (joinPath dir name) sub p ->
      located joinPath dir entries p.

(** Some directory under these entries cannot be listed. *)
Inductive unreadableIn : list (jsstring * entry) -> Prop :=
  | unreadable_here entries name :
      (name, DirEntry None) ∈ entries -> unreadableIn entries
  | unreadable_below entries name sub :
      (name, DirEntry (Some sub)) ∈ entries ->
      unreadableIn sub -> unreadableIn entries.

(** What the walk of one entry, or of a list of entries, has to deliver. *)
Definition scanned (joinPath : jsstring -> jsstring -> jsstring)
  (dir : jsstring) (entries : list (jsstring * entry))
  (outcome : option (list jsstring)) : Prop :=
  match outcome with
  | Some files =>
      (forall p, p ∈ files <-> located joinPath dir entries p)
      /\ ~ unreadableIn entries
  | None => unreadableIn entries
  end.

(** The entry of a file whose content the filter settles before it would
    ask the oracle: blank, cached or short. *)
Definition immediateResult (cache0 : gmap jsstring jsstring)
  (getFileContent : jsstring -> jsstring) (task : jsstring)
  (f : DocMetadata) : RelevantContent :=
  {| file := filename f;
     content :=
       match FilterService.contentBeforeAwait cache0
               (getFileContent (path f)) task with
       | inl result => result
       | inr _ => getFileContent (path f)
       end |}.

Definition settlesAtOnce (cache0 : gmap jsstring jsstring)
  (getFileContent : jsstring -> jsstring) (task : jsstring)
  (f : DocMetadata) : Prop :=
  exists result,
    FilterService.contentBeforeAwait cache0 (getFileContent (path f)) task
    = inl result.

(** A content stage in which no task has had to wait for the oracle. *)
Definition quiet (cache0 : gmap jsstring jsstring)
  (getFileContent : jsstring -> jsstring) (files : list DocMetadata)
  (task : jsstring) (s : CodeRulesHandler.sched) : Prop :=
  CodeRulesHandler.cache s = cache0
  /\ (forall i ph, (i, ph) ∈ CodeRulesHandler.active s ->
                   ph = CodeRulesHandler.Reading)
  /\ (forall i r, CodeRulesHandler.values s !! i = Some (Some r) ->
                  exists f, files !! i = Some f
                            /\ r = immediateResult cache0 getFileContent
                                     task f).

(** The same with white space after the closing dashes: [gap] up to the
    last line feed, [indent] after it. *)
Definition withHeaderAndGap (body gap indent text : jsstring) : jsstring :=
  lit "---" ++ [10%N] ++ body ++ fence ++ gap ++ [10%N] ++ indent ++ text.

(** ** Sample inputs for the remaining code *)

(** [p] occurs somewhere in [s]. *)
Fixpoint occurs (p s : jsstring) : bool :=
  match stripPrefix p s with
  | Some _ => true
  | None =>
      match s with
      | [] => false
      | _ :: s' => occurs p s'
      end
  end.

Definition sampleDocument : jsstring :=
  withHeader (lit "title: Logging rules") (lit "# Logging").

(** A file system with one readable file. *)
(** A header with spaces after the closing dashes and a blank line before
    the document. *)
Definition spacedDocument : jsstring :=
  withHeaderAndGap (lit "tags: [style, go]") [32%N; 32%N; 10%N] []
    (lit "# Style").

Definition sampleFiles (filePath : jsstring) : option jsstring :=
  if jsstring_eqb filePath (lit "/docs/a.md") then Some sampleDocument
  else if jsstring_eqb filePath (lit "/docs/b.md") then Some spacedDocument
  else None.

Definition lastSegment (filePath : jsstring) : jsstring :=
  rev (take (run (fun c => negb (N.eqb c 47)) (rev filePath)) (rev filePath)).

Definition slashJoin (dir name : jsstring) : jsstring :=
  dir ++ lit "/" ++ name.

(** A directory with a markdown file, a text file, a subdirectory that
    holds a rules file, and a directory whose name looks like a markdown
    file. *)
Definition sampleTree : list (jsstring * entry) :=
  [(lit "a.md", FileEntry);
   (lit "notes.txt", FileEntry);
   (lit "sub", DirEntry (Some [(lit "b.mdc", FileEntry)]));
   (lit "c.md", DirEntry (Some []))].

(** [JSON.parse] on the text of the empty list. *)
Definition parsesEmptyList (text : jsstring) : option value :=
  if jsstring_eqb text (lit "[]") then Some (JArray []) else None.

(** The second file of [twoDocs] done, the first still being read. *)
Definition secondDone : CodeRulesHandler.sched :=
  {| CodeRulesHandler.cache := ∅;
     CodeRulesHandler.queue := [];
     CodeRulesHandler.active := [(0%nat, CodeRulesHandler.Reading)];
     CodeRulesHandler.values := [None; Some (shortResult "b.md")] |}.

(** * Properties *)

(** ** The definitions on small inputs *)

Example simpleHash_abc : FilterService.simpleHash (lit "abc") = 96354.
Proof. reflexivity. Qed.

(** The 32-bit wrap-around shows on a longer string. *)
Example simpleHash_wraps :
  FilterService.simpleHash (lit "The quick brown fox jumps over the lazy dog")
  = -609428141.
Proof. vm_compute. reflexivity. Qed.

Example createCacheKey_sample :
  FilterService.createCacheKey
    (lit "The quick brown fox jumps over the lazy dog") (lit "abc")
  = lit "-609428141:96354".
Proof. vm_compute. reflexivity. Qed.

(** The match runs from the first opening to the last closing bracket. *)
Example jsonMatch_greedy :
  FilterService.jsonMatch (lit "Sure: [1] and [2], done]!")
  = Some (lit "[1] and [2], done]").
Proof. vm_compute. reflexivity. Qed.

Example jsonMatch_no_list : FilterService.jsonMatch (lit "] none [") = None.
Proof. vm_compute. reflexivity. Qed.

Example trim_sample : trim (lit "  a b
") = lit "a b".
Proof. vm_compute. reflexivity. Qed.

Example fileInfo_sample :
  FilterService.fileInfo 0
    {| filename := lit "a.md"; path := lit "/docs/a.md";
       title := Some (lit "Logging"); tags := Some [lit "x"; lit "y"];
       relevanceScore := None |}
  = lit "File 1: a.md - Logging tags: [x, y]".
Proof. vm_compute. reflexivity. Qed.

Example formatOutput_two :
  FormatterService.formatOutput [shortResult "a.md"; shortResult "b.md"]
  = lit "## a.md

Use tabs.

---

## b.md

Use tabs.

".
Proof. vm_compute. reflexivity. Qed.

(** ** Assembler *)

Lemma join_cons sep p parts :
  join sep (p :: parts) = p ++ flat_map (fun q => sep ++ q) parts.
Proof.
  revert p. induction parts as [|q parts IH]; intros p.
  - simpl. by rewrite app_nil_r.
  - change (join sep (p :: q :: parts)) with (p ++ sep ++ join sep (q :: parts)).
    rewrite IH. simpl. by rewrite <- app_assoc.
Qed.


(** The formatter of the earlier [CodeRulesService] renders non-empty lists
    in the same way and the empty list as the empty string. *)
Lemma legacy_formatOutput contents :
  CodeRulesService.formatOutput contents
  = match contents with
    | [] => []
    | _ => FormatterService.formatOutput contents
    end.
Proof. by destruct contents. Qed.

(** ** File relevance filter *)

Lemma stamp_stampedCopy f : stampedCopy f (FilterService.stamp f).
Proof. by repeat split. Qed.

Lemma trimStart_whitespace s : whitespaceOnly s -> trimStart s = [].
Proof.
  induction 1 as [|c s Hc _ IH]; [done|]. simpl. by rewrite Hc.
Qed.

Lemma trim_whitespace s : whitespaceOnly s -> trim s = [].
Proof. intros H. unfold trim. by rewrite (trimStart_whitespace s H). Qed.

Lemma arrayFilter_sublist {A} (cb : A -> nat -> option bool) l :
  forall index kept, arrayFilter cb index l = Some kept -> sublist kept l.
Proof.
  induction l as [|x l IH]; intros index kept; simpl.
  - intros [= <-]. constructor.
  - destruct (cb x index) as [keep|]; [|done].
    destruct (arrayFilter cb (S index) l) as [kept'|] eqn:E; [|done].
    intros [= <-]. specialize (IH _ _ E).
    destruct keep; by constructor.
Qed.

Section FileFilter.

Context (generateText : list FilterService.request -> FilterService.request
                        -> option jsstring).
Context (JSON_parse : jsstring -> option value).

Local Abbreviation filterRelevantFiles :=
  (FilterService.filterRelevantFiles generateText JSON_parse).

(** C2. The empty list is returned as the empty list, and a list of one to
    three files is returned whole, in order, every file stamped with the
    score 1.0; in both cases the service is left as it was: no request
    reaches the oracle. *)
Theorem small_lists_skip_the_oracle files task st :
  (files = [] -> filterRelevantFiles files task st = ([], st))
  /\ ((1 <= length files <= 3)%nat ->
      exists result,
        filterRelevantFiles files task st = (result, st)
        /\ Forall2 stampedCopy files result).
Proof.
  split.
  - by intros ->.
  - intros [Hlo Hhi]. exists (map FilterService.stamp files). split.
    + unfold FilterService.filterRelevantFiles.
      destruct (Nat.eqb_spec (length files) 0); [lia|].
      destruct (Nat.leb_spec (length files) 3); [done|lia].
    + clear. induction files; constructor; auto using stamp_stampedCopy.
Qed.

(** C3. With more than three files, when the oracle call throws, or its
    text holds no bracketed list, or that list does not parse, the input
    array itself is returned: no file dropped, none stamped. *)
Theorem fail_open_returns_the_input files task st :
  (3 < length files)%nat ->
  let response :=
    generateText (FilterService.oracleCalls st)
      (FilterService.filesRequest files task) in
  (response = None
   \/ exists text,
        response = Some text
        /\ (FilterService.jsonMatch text = None
            \/ exists jsonText,
                 FilterService.jsonMatch text = Some jsonText
                 /\ JSON_parse jsonText = None)) ->
  fst (filterRelevantFiles files task st) = files.
Proof.
  intros Hlen response Hfail.
  unfold FilterService.filterRelevantFiles, FilterService.callOracle.
  destruct (Nat.eqb_spec (length files) 0); [lia|].
  destruct (Nat.leb_spec (length files) 3); [lia|].
  fold response.
  destruct Hfail as [-> | (text & -> & [-> | (jsonText & -> & ->)])]; done.
Qed.

(** C10. On every path the files returned are a subsequence of the input:
    they pair off, in order, with a sublist of the input and differ from
    their originals at most in the relevance score. *)
Theorem result_is_a_subsequence files task st :
  exists chosen,
    sublist chosen files
    /\ Forall2 sameUpToScore (fst (filterRelevantFiles files task st)) chosen.
Proof.
  assert (Hid : forall l : list DocMetadata, Forall2 sameUpToScore l l).
  { induction l; constructor; [by repeat split|done]. }
  assert (Hst : forall l, Forall2 sameUpToScore (map FilterService.stamp l) l).
  { induction l; constructor; [by repeat split|done]. }
  unfold FilterService.filterRelevantFiles, FilterService.callOracle.
  destruct (Nat.eqb_spec (length files) 0) as [H0|_].
  { exists []. split; [apply sublist_nil_l|constructor]. }
  destruct (Nat.leb_spec (length files) 3) as [_|_].
  { exists files. split; [done|apply Hst]. }
  destruct (generateText _ _) as [text|]; simpl; [|by exists files].
  destruct (FilterService.jsonMatch text) as [jsonText|]; [|by exists files].
  destruct (JSON_parse jsonText) as [filterData|]; [|by exists files].
  unfold FilterService.applyVerdicts.
  destruct (arrayFilter _ _ _) as [kept|] eqn:E; [|by exists files].
  exists kept. split; [by eapply arrayFilter_sublist|apply Hst].
Qed.

End FileFilter.

(** ** Content relevance filter *)

Lemma contentBeforeAwait_blank cache0 content task :
  whitespaceOnly content ->
  FilterService.contentBeforeAwait cache0 content task = inl [].
Proof.
  intros H. unfold FilterService.contentBeforeAwait.
  rewrite (trim_whitespace content H).
  by rewrite orb_true_r.
Qed.

(** When the synchronous part reaches the oracle, the cache had no entry
    under the key of this content and task. *)
Lemma contentBeforeAwait_inr cache0 content task cacheKey req :
  FilterService.contentBeforeAwait cache0 content task = inr (cacheKey, req) ->
  cacheKey = FilterService.createCacheKey content task
  /\ req = FilterService.contentRequest content task
  /\ cache0 !! cacheKey = None
  /\ (jsstring_eqb content [] || jsstring_eqb (trim content) [])%bool = false
  /\ (500 <= length content)%nat.
Proof.
  unfold FilterService.contentBeforeAwait.
  destruct (_ || _)%bool; [done|].
  destruct (cache0 !! _) eqn:Hmiss; [done|].
  destruct (Nat.ltb_spec (length content) 500); [done|].
  intros [= <- <-]. auto.
Qed.

(** A cache entry under the key short-circuits non-blank content. *)
Lemma contentBeforeAwait_hit cache0 content task cached :
  (jsstring_eqb content [] || jsstring_eqb (trim content) [])%bool = false ->
  cache0 !! FilterService.createCacheKey content task = Some cached ->
  FilterService.contentBeforeAwait cache0 content task = inl cached.
Proof.
  intros Hblank Hhit. unfold FilterService.contentBeforeAwait.
  by rewrite Hblank, Hhit.
Qed.

Section ContentFilter.

Context (generateText : list FilterService.request -> FilterService.request
                        -> option jsstring).

Local Abbreviation filterRelevantContent :=
  (FilterService.filterRelevantContent generateText).

(** C5. Empty or whitespace-only content yields the empty string and leaves
    the service as it was: no request to the oracle, no cache entry. *)
Theorem blank_content_returns_empty content task st :
  whitespaceOnly content ->
  filterRelevantContent content task st = ([], st).
Proof.
  intros H. unfold FilterService.filterRelevantContent.
  by rewrite (contentBeforeAwait_blank _ _ _ H).
Qed.

(** C7. When a call of [filterRelevantContent] sends a request to the oracle
    and that request fails, the call returns the content it was given and
    the cache is what it was before. *)
Theorem oracle_failure_keeps_content content task st result st' req :
  filterRelevantContent content task st = (result, st') ->
  FilterService.oracleCalls st' = FilterService.oracleCalls st ++ [req] ->
  generateText (FilterService.oracleCalls st) req = None ->
  result = content
  /\ FilterService.taskCache st' = FilterService.taskCache st.
Proof.
  unfold FilterService.filterRelevantContent, FilterService.callOracle.
  destruct (FilterService.contentBeforeAwait _ _ _) as [r|[cacheKey req']].
  - intros [= <- <-] Hlog _. exfalso.
    apply (f_equal length) in Hlog. rewrite length_app in Hlog.
    simpl in Hlog. lia.
  - cbn [FilterService.taskCache FilterService.oracleCalls].
    destruct (generateText _ req') as [text|] eqn:Hresp.
    + intros [= <- <-]. cbn [FilterService.oracleCalls].
      intros Hlog%app_inj_tail. destruct Hlog as [_ <-]. congruence.
    + by intros [= <- <-].
Qed.

(** C6, as the code has it. Two calls in a row with the same content and
    task send at most one request to the oracle between them, and return the
    same text, provided no request sent by the first call failed. *)
Theorem repeated_call_is_cached content task st r1 st1 r2 st2 :
  filterRelevantContent content task st = (r1, st1) ->
  filterRelevantContent content task st1 = (r2, st2) ->
  (forall req,
     FilterService.oracleCalls st1 = FilterService.oracleCalls st ++ [req] ->
     generateText (FilterService.oracleCalls st) req <> None) ->
  (length (FilterService.oracleCalls st2)
   <= length (FilterService.oracleCalls st) + 1)%nat
  /\ r2 = r1.
Proof.
  unfold FilterService.filterRelevantContent at 1.
  unfold FilterService.callOracle.
  destruct (FilterService.contentBeforeAwait _ content task)
    as [r|[cacheKey req]] eqn:Hsync.
  - intros [= <- <-] H2 _.
    unfold FilterService.filterRelevantContent in H2. rewrite Hsync in H2.
    injection H2 as <- <-. split; [lia|done].
  - apply contentBeforeAwait_inr in Hsync
      as (-> & -> & _ & Hblank & _).
    cbn [FilterService.taskCache FilterService.oracleCalls].
    destruct (generateText _ _) as [text|] eqn:Hresp.
    + intros [= <- <-] H2 _.
      unfold FilterService.filterRelevantContent in H2.
      cbn [FilterService.taskCache] in H2.
      rewrite (contentBeforeAwait_hit _ _ _ text Hblank) in H2
        by apply lookup_insert_eq.
      injection H2 as <- <-. cbn [FilterService.oracleCalls].
      rewrite length_app. simpl. split; [lia|done].
    + intros [= <- <-] _ Hok. exfalso.
      by apply (Hok (FilterService.contentRequest content task)).
Qed.

End ContentFilter.

(** ** Verdict lookup *)

Lemma strictNeFalse_false v : strictNeFalse v = false <-> v = JBool false.
Proof. destruct v as [| |[]| | | |]; by split. Qed.

Lemma includeIsFalse_object props :
  includeIsFalse (JObject props)
  <-> lookupProp (lit "include") props = JBool false.
Proof. unfold includeIsFalse, getProp. split; congruence. Qed.

Lemma hasIndex_object item i :
  hasIndex item i = true -> exists props, item = JObject props.
Proof.
  unfold hasIndex. destruct item; simpl; try done. by eexists.
Qed.

Lemma findVerdict_spec items i :
  Forall (fun v => ~ nullish v) items ->
  (exists pre item post,
     items = pre ++ item :: post
     /\ Forall (fun u => hasIndex u i = false) pre
     /\ hasIndex item i = true
     /\ FilterService.findVerdict (JArray items) i = Some item)
  \/ (Forall (fun u => hasIndex u i = false) items
      /\ FilterService.findVerdict (JArray items) i = Some JUndefined).
Proof.
  unfold FilterService.findVerdict.
  induction 1 as [|item items Hitem _ IH]; [right; by split|].
  cbn [arrayFind].
  assert (Hprop : exists v, getProp item (lit "fileIndex") = Some v).
  { destruct item; simpl; eauto; exfalso; apply Hitem; unfold nullish; auto. }
  destruct Hprop as [v Hv].
  assert (Hidx : hasIndex item i
                 = strictEqNumber v (number_of_Z (Z.of_nat (i + 1)))).
  { unfold hasIndex. by rewrite Hv. }
  rewrite Hv. destruct (strictEqNumber v _) eqn:Heq.
  - left. exists [], item, items. by repeat split.
  - destruct IH as [(pre & found & post & -> & Hpre & Hfound & Hfind)
                   | [Hnone Hfind]].
    + left. exists (item :: pre), found, post. repeat split; auto.
    + right. split; auto.
Qed.

Lemma first_match_unique (items pre pre' post post' : list value) a a' i :
  pre ++ a :: post = pre' ++ a' :: post' ->
  Forall (fun u => hasIndex u i = false) pre -> hasIndex a i = true ->
  Forall (fun u => hasIndex u i = false) pre' -> hasIndex a' i = true ->
  a = a'.
Proof.
  revert pre'. induction pre as [|x pre IH]; intros [|x' pre'] Heq Hp Ha Hp' Ha'.
  - by injection Heq.
  - injection Heq as -> _. apply Forall_cons in Hp' as [Hx _]. congruence.
  - injection Heq as -> _. apply Forall_cons in Hp as [Hx _]. congruence.
  - injection Heq as -> Heq. apply Forall_cons in Hp as [_ Hp].
    apply Forall_cons in Hp' as [_ Hp']. eauto.
Qed.

Lemma keepFile_spec items f i :
  Forall (fun v => ~ nullish v) items ->
  exists keep,
    FilterService.keepFile (JArray items) f i = Some keep
    /\ (keep = false <-> excludedByFirstVerdict items i).
Proof.
  intros Hitems. unfold FilterService.keepFile.
  destruct (findVerdict_spec items i Hitems)
    as [(pre & item & post & -> & Hpre & Hitem & ->) | [Hnone ->]].
  - destruct (hasIndex_object _ _ Hitem) as [props ->].
    cbn [truthy negb getProp].
    exists (strictNeFalse (lookupProp (lit "include") props)). split; [done|].
    split.
    + intros Hkeep%strictNeFalse_false. exists pre, (JObject props), post.
      repeat split; auto. by apply includeIsFalse_object.
    + intros (pre' & item' & post' & Heq & Hpre' & Hitem' & Hfalse).
      assert (JObject props = item') as <-
        by (eapply (first_match_unique (pre ++ JObject props :: post)); eauto).
      by apply strictNeFalse_false, includeIsFalse_object.
  - exists true. split; [done|]. split; [done|].
    intros (pre & item & post & -> & _ & Hitem & _).
    apply Forall_app in Hnone as [_ Hnone].
    apply Forall_cons in Hnone as [Hnone _]. congruence.
Qed.

Lemma keepFile_total items f i :
  Forall (fun v => ~ nullish v) items ->
  exists keep,
    FilterService.keepFile (JArray items) f i = Some keep
    /\ (keep = true <-> ~ excludedByFirstVerdict items i).
Proof.
  intros Hitems. destruct (keepFile_spec items f i Hitems) as (keep & -> & H).
  exists keep. split; [done|]. destruct keep; split; try done.
  - intros _ Hex. apply H in Hex. done.
  - intros Hn. exfalso. apply Hn, H. done.
Qed.

Lemma arrayFilter_positions {A} (cb : A -> nat -> option bool)
  (P : nat -> Prop) (l : list A) :
  (forall x j, exists keep, cb x j = Some keep /\ (keep = true <-> P j)) ->
  forall index,
  exists kept positions,
    arrayFilter cb index l = Some kept
    /\ StronglySorted lt positions
    /\ Forall (fun p => index <= p)%nat positions
    /\ Forall2 (fun p x => l !! (p - index)%nat = Some x) positions kept
    /\ forall j, (index <= j < index + length l)%nat ->
                 (j ∈ positions <-> P j).
Proof.
  intros Hcb. induction l as [|x l IH]; intros index.
  - exists [], []. repeat split; try constructor.
    + by intros ?%elem_of_nil.
    + simpl in *. lia.
  - destruct (Hcb x index) as (keep & Hkeep & HP).
    destruct (IH (S index)) as (kept & positions & Hrest & Hsorted & Hge
                                & Hat & Hiff).
    assert (Hat' : Forall2 (fun p y => (x :: l) !! (p - index)%nat = Some y)
                     positions kept).
    { clear -Hat Hge. induction Hat as [|p y ps ys Hp _ IH]; [constructor|].
      apply Forall_cons in Hge as [Hp' Hge]. constructor; auto.
      replace (p - index)%nat with (S (p - S index)) by lia. done. }
    assert (Hnotin : index ∉ positions).
    { intros Hin. rewrite Forall_forall in Hge.
      specialize (Hge _ Hin). lia. }
    cbn [arrayFilter]. rewrite Hkeep, Hrest.
    destruct keep.
    + exists (x :: kept), (index :: positions). repeat split.
      * constructor; [done|]. eapply Forall_impl; [exact Hge|].
        simpl. intros. lia.
      * constructor; [lia|]. eapply Forall_impl; [exact Hge|].
        simpl. intros. lia.
      * constructor; [|done]. by rewrite Nat.sub_diag.
      * intros Hin. apply elem_of_cons in Hin as [->|Hin].
        -- by apply HP.
        -- apply Hiff; [|done]. rewrite Forall_forall in Hge.
           specialize (Hge _ Hin). simpl in *. lia.
      * intros Hj. destruct (decide (j = index)) as [->|Hne];
          [by left|right]. apply Hiff; [simpl in *; lia|done].
    + exists kept, positions. repeat split; auto.
      * eapply Forall_impl; [exact Hge|]. simpl. intros. lia.
      * intros Hin. apply Hiff; [|done]. rewrite Forall_forall in Hge.
        specialize (Hge _ Hin). simpl in *. lia.
      * intros Hj. destruct (decide (j = index)) as [->|Hne].
        -- apply HP in Hj. done.
        -- apply Hiff; [simpl in *; lia|done].
Qed.

Section Verdicts.

Context (generateText : list FilterService.request -> FilterService.request
                        -> option jsstring).
Context (JSON_parse : jsstring -> option value).

Local Abbreviation filterRelevantFiles :=
  (FilterService.filterRelevantFiles generateText JSON_parse).

(** C4, as the code has it. With more than three files and a parsed verdict
    list none of whose entries is [null], the file at 0-based position [i]
    is excluded exactly when the first entry with [fileIndex = i + 1] has
    [include] exactly [false]; every other file is included and stamped
    with the score 1.0. *)
Theorem first_verdict_decides files task st text jsonText items :
  (3 < length files)%nat ->
  generateText (FilterService.oracleCalls st)
    (FilterService.filesRequest files task) = Some text ->
  FilterService.jsonMatch text = Some jsonText ->
  JSON_parse jsonText = Some (JArray items) ->
  Forall (fun v => ~ nullish v) items ->
  exists positions,
    keptAt files positions (fst (filterRelevantFiles files task st))
    /\ forall i, (i < length files)%nat ->
                 (i ∉ positions <-> excludedByFirstVerdict items i).
Proof.
  intros Hlen Htext Hmatch Hparse Hitems.
  unfold FilterService.filterRelevantFiles, FilterService.callOracle.
  destruct (Nat.eqb_spec (length files) 0); [lia|].
  destruct (Nat.leb_spec (length files) 3); [lia|].
  rewrite Htext, Hmatch, Hparse. unfold FilterService.applyVerdicts.
  destruct (arrayFilter_positions
              (FilterService.keepFile (JArray items))
              (fun j => ~ excludedByFirstVerdict items j) files
              (fun x j => keepFile_total items x j Hitems) 0%nat)
    as (kept & positions & -> & Hsorted & _ & Hat & Hiff).
  exists positions. split; [split; [done|]|].
  - cbn [fst]. apply Forall2_fmap_r.
    eapply Forall2_impl; [exact Hat|]. intros p f Hp. cbn beta in Hp |- *.
    exists f. rewrite Nat.sub_0_r in Hp. auto using stamp_stampedCopy.
  - intros i Hi. rewrite (Hiff i) by lia.
    destruct (lookup_lt_is_Some_2 files i Hi) as [f _].
    destruct (keepFile_spec items f i Hitems) as ([] & _ & Hdec).
    + split; [|tauto]. intros Hnn. exfalso. apply Hnn.
      intros Hex. apply Hdec in Hex. done.
    + split; [intros _; by apply Hdec|tauto].
Qed.

End Verdicts.

(** ** Bounded-concurrency content stage *)

Lemma Promise_all_complete {A} (resultOf : A -> RelevantContent -> Prop)
  (fs : list A) :
  forall vs,
    length vs = length fs ->
    (forall i f, fs !! i = Some f ->
                 exists r, vs !! i = Some (Some r) /\ resultOf f r) ->
    exists rs,
      CodeRulesHandler.Promise_all vs = Some rs /\ Forall2 resultOf fs rs.
Proof.
  induction fs as [|f fs IH]; intros [|v vs] Hlen H; try done.
  - exists []. by split.
  - destruct (H 0%nat f eq_refl) as (r & [= ->] & Hr).
    destruct (IH vs) as (rs & Hrs & Hall); [by injection Hlen|..].
    { intros i g Hg. apply (H (S i) g Hg). }
    exists (r :: rs). simpl. rewrite Hrs. split; [done|by constructor].
Qed.

Lemma filterRelevantContent_sync generateText st content task result :
  FilterService.contentBeforeAwait (FilterService.taskCache st) content task
    = inl result ->
  fst (FilterService.filterRelevantContent generateText content task st)
  = result.
Proof.
  intros H. unfold FilterService.filterRelevantContent. by rewrite H.
Qed.

Lemma filterRelevantContent_async generateText st content task cacheKey req :
  FilterService.contentBeforeAwait (FilterService.taskCache st) content task
    = inr (cacheKey, req) ->
  fst (FilterService.filterRelevantContent generateText content task st)
  = fst (FilterService.contentAfterAwait (FilterService.taskCache st)
           cacheKey content
           (generateText (FilterService.oracleCalls st) req)).
Proof.
  intros H. unfold FilterService.filterRelevantContent. rewrite H.
  unfold FilterService.callOracle. by destruct (generateText _ _).
Qed.

Lemma contentAfterAwait_result cache1 cache2 cacheKey raw response :
  fst (FilterService.contentAfterAwait cache1 cacheKey raw response)
  = fst (FilterService.contentAfterAwait cache2 cacheKey raw response).
Proof. by destruct response. Qed.

Lemma pending_start i q (act : list (nat * CodeRulesHandler.phase)) :
  q ++ (act ++ [(i, CodeRulesHandler.Reading)]).*1 ≡ₚ (i :: q) ++ act.*1.
Proof.
  rewrite fmap_app. simpl.
  rewrite (Permutation_app_comm act.*1 [i]). simpl.
  by rewrite <- Permutation_middle.
Qed.

Lemma pending_settle q (a1 a2 : list (nat * CodeRulesHandler.phase)) i ph :
  q ++ (a1 ++ (i, ph) :: a2).*1 ≡ₚ i :: q ++ (a1 ++ a2).*1.
Proof.
  rewrite !fmap_app. simpl. by rewrite <- !Permutation_middle.
Qed.

Lemma pending_await q (a1 a2 : list (nat * CodeRulesHandler.phase)) i ph ph' :
  q ++ (a1 ++ (i, ph') :: a2).*1 = q ++ (a1 ++ (i, ph) :: a2).*1.
Proof. by rewrite !fmap_app. Qed.

Section ContentStage.

Context (getFileContent : jsstring -> jsstring).
Context (files : list DocMetadata) (task : jsstring).

Local Abbreviation step := (CodeRulesHandler.step getFileContent files task).
Local Abbreviation inv := (schedInvariant getFileContent files task).

Lemma inv_initial cache0 : inv (CodeRulesHandler.initial files cache0).
Proof.
  unfold schedInvariant, pending. simpl. rewrite app_nil_r. split_and!.
  - apply length_replicate.
  - apply NoDup_seq.
  - intros i Hi%elem_of_seq. split; [lia|]. apply lookup_replicate_2. lia.
  - intros i Hi Hn. exfalso. apply Hn, elem_of_seq. lia.
  - by intros ??? ?%elem_of_nil.
Qed.

(** A task leaves the running set with its value stored at its own index. *)
Lemma inv_settle s a1 a2 i ph f r cache' :
  inv s ->
  CodeRulesHandler.active s = a1 ++ (i, ph) :: a2 ->
  files !! i = Some f ->
  CodeRulesHandler.resultOf getFileContent task f r ->
  inv {| CodeRulesHandler.cache := cache';
         CodeRulesHandler.queue := CodeRulesHandler.queue s;
         CodeRulesHandler.active := a1 ++ a2;
         CodeRulesHandler.values :=
           <[i := Some r]> (CodeRulesHandler.values s) |}.
Proof.
  intros (Hlen & Hnd & Hpend & Hdone & Hfilt) Hact Hf Hr.
  assert (Hperm : pending s
                  ≡ₚ i :: CodeRulesHandler.queue s ++ (a1 ++ a2).*1).
  { unfold pending. rewrite Hact. apply pending_settle. }
  rewrite Hperm in Hnd. apply NoDup_cons in Hnd as [Hni Hnd].
  unfold schedInvariant, pending. simpl. split_and!.
  - by rewrite length_insert.
  - done.
  - intros j Hj. destruct (Hpend j) as [Hlt Hnone].
    { rewrite Hperm. by right. }
    split; [done|]. rewrite list_lookup_insert_ne; [done|].
    by intros ->.
  - intros j Hj Hnj. destruct (decide (j = i)) as [->|Hne].
    + exists f, r. split_and!; [done| |done].
      apply list_lookup_insert_eq. lia.
    + destruct (Hdone j Hj) as (g & r' & Hg & Hv & Hres).
      { rewrite Hperm. intros [->|Hin]%elem_of_cons; done. }
      exists g, r'. split_and!; [done| |done].
      by rewrite list_lookup_insert_ne.
  - intros j raw cacheKey Hin. apply (Hfilt j raw cacheKey).
    rewrite Hact. apply elem_of_app in Hin as [Hin|Hin].
    + apply elem_of_app. by left.
    + apply elem_of_app. right. by right.
Qed.

Lemma inv_step s s' : inv s -> step s s' -> inv s'.
Proof.
  intros Hinv Hstep. step_cases Hstep.
  - destruct Hinv as (Hlen & Hnd & Hpend & Hdone & Hfilt).
    assert (Hperm : q ++ (CodeRulesHandler.active s
                          ++ [(i, CodeRulesHandler.Reading)]).*1
                    ≡ₚ pending s).
    { unfold pending. rewrite Hq. apply pending_start. }
    unfold schedInvariant, pending. simpl. split_and!; try done.
    + by rewrite Hperm.
    + intros j Hj. apply Hpend. by rewrite <- Hperm.
    + intros j Hj Hnj. apply Hdone; [done|]. by rewrite <- Hperm.
    + intros j raw cacheKey Hin. apply (Hfilt j raw cacheKey).
      apply elem_of_app in Hin as [Hin|Hin]; [done|].
      by apply list_elem_of_singleton in Hin.
  - eapply inv_settle; eauto. split; [done|]. simpl.
    exists {| FilterService.taskCache := CodeRulesHandler.cache s;
              FilterService.oracleCalls := [] |}, None.
    symmetry. by apply filterRelevantContent_sync.
  - destruct Hinv as (Hlen & Hnd & Hpend & Hdone & Hfilt).
    assert (Heq : CodeRulesHandler.queue s
                  ++ (a1 ++ (i, CodeRulesHandler.Filtering
                                  (getFileContent (path f)) cacheKey)
                         :: a2).*1
                  = pending s).
    { unfold pending. rewrite Hact. apply pending_await. }
    unfold schedInvariant, pending. simpl. rewrite Heq.
    split_and!; try done.
    intros j raw key Hin.
    apply elem_of_app in Hin as [Hin|[Hin|Hin]%elem_of_cons].
    + apply (Hfilt j raw key). rewrite Hact. apply elem_of_app. by left.
    + injection Hin as -> -> ->. by exists f, (CodeRulesHandler.cache s), req.
    + apply (Hfilt j raw key). rewrite Hact. apply elem_of_app.
      right. by right.
  - assert (Hin : (i, CodeRulesHandler.Filtering raw cacheKey)
                  ∈ CodeRulesHandler.active s).
    { rewrite Hact. apply elem_of_app. right. by left. }
    destruct Hinv as (Hlen & Hnd & Hpend & Hdone & Hfilt).
    destruct (Hfilt _ _ _ Hin) as (f' & cache0 & req & Hf' & Hraw & Hsync).
    assert (f' = f) as -> by congruence.
    eapply inv_settle; eauto; [by split_and!|]. split; [done|]. simpl.
    exists {| FilterService.taskCache := cache0;
              FilterService.oracleCalls := [] |}, response.
    rewrite <- Hraw.
    rewrite (filterRelevantContent_async _ _ _ _ cacheKey req) by done.
    cbn [FilterService.taskCache].
    rewrite (contentAfterAwait_result cache0 (CodeRulesHandler.cache s)).
    by rewrite Hasync.
Qed.

Lemma inv_reachable cache0 s :
  rtc step (CodeRulesHandler.initial files cache0) s -> inv s.
Proof.
  revert s. apply rtc_ind_r.
  - apply inv_initial.
  - intros s s' _ Hstep IH. by eapply inv_step.
Qed.




(** C9. In every state the content stage reaches, whatever the order in
    which reads and oracle calls complete and however many files there are,
    at most four per-file operations are running. *)
Theorem at_most_four_in_flight cache0 s :
  rtc step (CodeRulesHandler.initial files cache0) s ->
  (length (CodeRulesHandler.active s) <= 4)%nat.
Proof.
  revert s. apply rtc_ind_r; [simpl; lia|].
  intros s s' _ Hstep IH. step_cases Hstep;
    simpl.
  - rewrite length_app.
    unfold CodeRulesHandler.admits, CodeRulesHandler.concurrency in Hroom.
    simpl. lia.
  - rewrite Hact in IH. rewrite length_app in *. simpl in IH. lia.
  - rewrite Hact in IH. rewrite length_app in *. simpl in *. lia.
  - rewrite Hact in IH. rewrite length_app in *. simpl in IH. lia.
Qed.


End ContentStage.

(** * The properties at sample inputs *)

(** ** File relevance filter *)

Lemma small_lists_skip_the_oracle_witness :
  FilterService.filterRelevantFiles failingOracle neverParses [] sampleTask
    freshService = ([], freshService)
  /\ exists result,
       FilterService.filterRelevantFiles failingOracle neverParses twoDocs
         sampleTask freshService = (result, freshService)
       /\ Forall2 stampedCopy twoDocs result.
Proof.
  split.
  - apply (small_lists_skip_the_oracle failingOracle neverParses []).
    reflexivity.
  - apply (small_lists_skip_the_oracle failingOracle neverParses twoDocs).
    simpl. lia.
Defined.

Lemma fail_open_returns_the_input_witness :
  fst (FilterService.filterRelevantFiles failingOracle neverParses fiveDocs
         sampleTask freshService) = fiveDocs.
Proof.
  apply fail_open_returns_the_input.
  - simpl. lia.
  - left. reflexivity.
Defined.

(** An answer without any bracketed list: all five files come back, none
    stamped. *)
Example unparsable_answer_keeps_all :
  fst (FilterService.filterRelevantFiles (answering (lit "I cannot decide."))
         sampleParse fiveDocs sampleTask freshService)
  = fiveDocs.
Proof. vm_compute. reflexivity. Qed.

Lemma first_verdict_decides_witness :
  exists positions,
    keptAt fiveDocs positions
      (fst (FilterService.filterRelevantFiles (answering dropThirdText)
              sampleParse fiveDocs sampleTask freshService))
    /\ forall i, (i < length fiveDocs)%nat ->
                 (i ∉ positions
                  <-> excludedByFirstVerdict [verdict 3 false] i).
Proof.
  apply (first_verdict_decides (answering dropThirdText) sampleParse fiveDocs
           sampleTask freshService dropThirdText dropThirdJson).
  - simpl. lia.
  - reflexivity.
  - vm_compute. reflexivity.
  - vm_compute. reflexivity.
  - repeat constructor. intros [H|H]; discriminate H.
Defined.

(** On the sample of the specification (five files, the oracle drops the
    third) the files returned are the first, second, fourth and fifth. *)
Example drop_third_of_five :
  fst (FilterService.filterRelevantFiles (answering dropThirdText)
         sampleParse fiveDocs sampleTask freshService)
  = map FilterService.stamp [doc "a.md"; doc "b.md"; doc "d.md"; doc "e.md"].
Proof. vm_compute. reflexivity. Qed.

(** C4 as worded fails on the code. With two verdicts for file 1, keep
    first and drop second, the code keeps file 1 where the claim has it
    dropped; with a [null] entry the lookup throws and the input comes back
    unstamped where the claim has every file stamped. *)
Lemma verdict_claim_fails :
  ~ verdictClaim (answering duplicateText) sampleParse fiveDocs sampleTask
      freshService
  /\ ~ verdictClaim (answering nullText) sampleParse fiveDocs sampleTask
         freshService.
Proof.
  split.
  - intros Hclaim.
    destruct (Hclaim duplicateText duplicateText duplicateItems)
      as (positions & [_ Hkept] & Hiff);
      [simpl; lia|reflexivity|by vm_compute|by vm_compute|].
    assert (Hout : 0%nat ∉ positions).
    { apply Hiff; [simpl; lia|]. exists (verdict 1 false).
      split; [|split]; [|by vm_compute|reflexivity].
      unfold duplicateItems. apply elem_of_cons. right. by left. }
    assert (Hres :
      fst (FilterService.filterRelevantFiles (answering duplicateText)
             sampleParse fiveDocs sampleTask freshService)
      = map FilterService.stamp fiveDocs) by (by vm_compute).
    rewrite Hres in Hkept.
    destruct positions as [|p positions]; [inversion Hkept|].
    apply Hout. apply Forall2_cons_1 in Hkept as [(f & Hf & [Hsame _]) _].
    destruct Hsame as [Hname _].
    destruct p as [|[|[|[|[|p]]]]]; [by left|..];
      vm_compute in Hf; try discriminate Hf; injection Hf as <-;
      vm_compute in Hname; discriminate Hname.
  - intros Hclaim.
    destruct (Hclaim nullText nullText [JNull])
      as (positions & [_ Hkept] & Hiff);
      [simpl; lia|reflexivity|by vm_compute|by vm_compute|].
    assert (Hres :
      fst (FilterService.filterRelevantFiles (answering nullText)
             sampleParse fiveDocs sampleTask freshService)
      = fiveDocs) by (by vm_compute).
    rewrite Hres in Hkept.
    destruct positions as [|p positions]; [inversion Hkept|].
    apply Forall2_cons_1 in Hkept as [(f & _ & [_ Hscore]) _].
    discriminate Hscore.
Qed.

(** ** Content relevance filter *)

Lemma blank_content_returns_empty_witness :
  FilterService.filterRelevantContent failingOracle (lit "
  ") sampleTask freshService = ([], freshService).
Proof.
  apply blank_content_returns_empty.
  vm_compute. repeat constructor.
Defined.

Lemma oracle_failure_keeps_content_witness :
  fst (FilterService.filterRelevantContent failingOracle longContent
         sampleTask freshService) = longContent
  /\ FilterService.taskCache
       (snd (FilterService.filterRelevantContent failingOracle longContent
               sampleTask freshService))
     = FilterService.taskCache freshService.
Proof.
  apply (oracle_failure_keeps_content failingOracle longContent sampleTask
           freshService _ _
           (FilterService.contentRequest longContent sampleTask)).
  - apply surjective_pairing.
  - vm_compute. reflexivity.
  - reflexivity.
Defined.

Lemma repeated_call_is_cached_witness :
  let first :=
    FilterService.filterRelevantContent (answering (lit "pruned"))
      longContent sampleTask freshService in
  let second :=
    FilterService.filterRelevantContent (answering (lit "pruned"))
      longContent sampleTask (snd first) in
  (length (FilterService.oracleCalls (snd second))
   <= length (FilterService.oracleCalls freshService) + 1)%nat
  /\ fst second = fst first.
Proof.
  intros first second.
  apply (repeated_call_is_cached (answering (lit "pruned")) longContent
           sampleTask freshService (fst first) (snd first)).
  - apply surjective_pairing.
  - apply surjective_pairing.
  - intros req _. discriminate.
Defined.

(** C6 as worded fails on the code: when the oracle fails on the first call
    nothing is cached, so the second call asks it again (two requests), and
    here it gets an answer that differs from what the first call returned. *)
Lemma repeat_claim_fails :
  ~ repeatClaim flakyOracle longContent sampleTask freshService.
Proof.
  unfold repeatClaim.
  destruct (FilterService.filterRelevantContent flakyOracle longContent
              sampleTask freshService) as [r1 st1] eqn:E1.
  vm_compute in E1. injection E1 as <- <-.
  destruct (FilterService.filterRelevantContent flakyOracle _ _ _)
    as [r2 st2] eqn:E2.
  vm_compute in E2. injection E2 as <- <-.
  intros [Hcalls _]. simpl in Hcalls. lia.
Qed.

(** ** Bounded-concurrency content stage *)

(** With five files, four start and the fifth has to wait. *)
Lemma four_of_five_started :
  rtc (CodeRulesHandler.step shortReader fiveDocs sampleTask)
    (CodeRulesHandler.initial fiveDocs ∅) fourStarted.
Proof.
  eapply rtc_l.
  { apply (CodeRulesHandler.step_start _ _ _ _ 0%nat [1; 2; 3; 4]%nat);
      [reflexivity|].
    unfold CodeRulesHandler.admits, CodeRulesHandler.concurrency. simpl. lia. }
  eapply rtc_l.
  { apply (CodeRulesHandler.step_start _ _ _ _ 1%nat [2; 3; 4]%nat);
      [reflexivity|].
    unfold CodeRulesHandler.admits, CodeRulesHandler.concurrency. simpl. lia. }
  eapply rtc_l.
  { apply (CodeRulesHandler.step_start _ _ _ _ 2%nat [3; 4]%nat);
      [reflexivity|].
    unfold CodeRulesHandler.admits, CodeRulesHandler.concurrency. simpl. lia. }
  eapply rtc_l.
  { apply (CodeRulesHandler.step_start _ _ _ _ 3%nat [4]%nat);
      [reflexivity|].
    unfold CodeRulesHandler.admits, CodeRulesHandler.concurrency. simpl. lia. }
  apply rtc_refl.
Defined.

Lemma at_most_four_in_flight_witness :
  (length (CodeRulesHandler.active fourStarted) <= 4)%nat.
Proof.
  apply (at_most_four_in_flight shortReader fiveDocs sampleTask ∅).
  apply four_of_five_started.
Defined.

(** In [fourStarted] the fifth file cannot start: the only steps left are
    completions of running tasks. *)
Example fifth_file_waits s :
  CodeRulesHandler.step shortReader fiveDocs sampleTask fourStarted s ->
  CodeRulesHandler.queue s = [4%nat].
Proof.
  inversion 1 as [? i q Hq Hroom| | |]; subst; try reflexivity.
  unfold CodeRulesHandler.admits, CodeRulesHandler.concurrency in Hroom.
  simpl in Hroom. lia.
Qed.



(** * Further properties of the code *)

(** ** The cache key (createCacheKey, simpleHash) *)

Lemma toInt32_range z : - 2 ^ 31 <= FilterService.toInt32 z < 2 ^ 31.
Proof.
  unfold FilterService.toInt32.
  pose proof (Z.mod_pos_bound (z + 2 ^ 31) (2 ^ 32)).
  powers_of_two. lia.
Qed.

Lemma toInt32_congruent a b :
  (a - b) mod 2 ^ 32 = 0 -> FilterService.toInt32 a = FilterService.toInt32 b.
Proof.
  intros H. unfold FilterService.toInt32. f_equal.
  apply Z.mod_divide in H; [|lia]. destruct H as [k Hk].
  replace (a + 2 ^ 31) with (b + 2 ^ 31 + k * 2 ^ 32)
    by (powers_of_two; lia).
  apply Z_mod_plus_full.
Qed.

Lemma toInt32_offset z :
  exists k, FilterService.toInt32 z = z + k * 2 ^ 32.
Proof.
  unfold FilterService.toInt32.
  exists (- ((z + 2 ^ 31) / 2 ^ 32)).
  pose proof (Z.div_mod (z + 2 ^ 31) (2 ^ 32)).
  powers_of_two. lia.
Qed.

(** One round of the loop is multiplication by 31, plus the code unit,
    truncated. *)
Lemma hash_round h c :
  FilterService.toInt32
    (FilterService.toInt32 (Z.shiftl h 5) - h + Z.of_N c)
  = FilterService.toInt32 (31 * h + Z.of_N c).
Proof.
  rewrite Z.shiftl_mul_pow2 by lia.
  destruct (toInt32_offset (h * 2 ^ 5)) as [k ->].
  apply toInt32_congruent.
  replace (h * 2 ^ 5 + k * 2 ^ 32 - h + Z.of_N c - (31 * h + Z.of_N c))
    with (k * 2 ^ 32) by (powers_of_two; lia).
  apply Z_mod_mult.
Qed.

Lemma truncate_inside x c :
  FilterService.toInt32 (31 * FilterService.toInt32 x + c)
  = FilterService.toInt32 (31 * x + c).
Proof.
  destruct (toInt32_offset x) as [k ->].
  apply toInt32_congruent.
  replace (31 * (x + k * 2 ^ 32) + c - (31 * x + c))
    with (31 * k * 2 ^ 32) by (powers_of_two; lia).
  apply Z_mod_mult.
Qed.

Lemma simpleHash_snoc str c :
  FilterService.simpleHash (str ++ [c])
  = FilterService.toInt32 (31 * FilterService.simpleHash str + Z.of_N c).
Proof.
  unfold FilterService.simpleHash. rewrite fold_left_app. simpl.
  apply hash_round.
Qed.

Lemma simpleHash_app a b :
  FilterService.simpleHash (a ++ b)
  = fold_left
      (fun hash c =>
         FilterService.toInt32
           ((FilterService.toInt32 (Z.shiftl hash 5) - hash) + Z.of_N c))
      b (FilterService.simpleHash a).
Proof. unfold FilterService.simpleHash. apply fold_left_app. Qed.

(** X1. The hash of every string is a signed 32-bit integer. *)
Theorem simpleHash_is_int32 str :
  - 2 ^ 31 <= FilterService.simpleHash str < 2 ^ 31.
Proof.
  destruct str as [|c str] using rev_ind; [by vm_compute|].
  rewrite simpleHash_snoc. apply toInt32_range.
Qed.

(** X2. The shift-and-subtract loop computes the base-31 polynomial of the
    code units, reduced to a signed 32-bit integer. *)
Theorem simpleHash_is_polynomial str :
  FilterService.simpleHash str = FilterService.toInt32 (polynomial31 str).
Proof.
  induction str as [|c str IH] using rev_ind; [reflexivity|].
  rewrite simpleHash_snoc, IH, truncate_inside. unfold polynomial31.
  by rewrite fold_left_app.
Qed.

Lemma lit_app a b : lit (a +:+ b) = lit a ++ lit b.
Proof. induction a as [|x a IH]; [done|]. simpl. by rewrite IH. Qed.

Lemma lit_inj a b : lit a = lit b -> a = b.
Proof.
  revert b. induction a as [|x a IH]; intros [|y b]; try done.
  simpl. intros [= Hxy Hab]. f_equal; [|by apply IH].
  rewrite <- (ascii_N_embedding x), <- (ascii_N_embedding y). by rewrite Hxy.
Qed.

(** No colon among the digits. *)
Lemma pretty_N_go_no_colon x s :
  Forall (fun c => c <> 58%N) (lit s) ->
  Forall (fun c => c <> 58%N) (lit (pretty_N_go x s)).
Proof.
  revert s. induction (N.lt_wf_0 x) as [x _ IH]; intros s Hs.
  assert (x = 0 \/ 0 < x)%N as [->|Hpos] by lia.
  - by rewrite pretty_N_go_0.
  - rewrite pretty_N_go_step by done. apply IH; [by apply N.div_lt|].
    simpl. constructor; [|done].
    unfold pretty_N_char. by repeat case_match.
Qed.

Lemma pretty_N_no_colon (x : N) :
  Forall (fun c => c <> 58%N) (lit (pretty x)).
Proof.
  unfold pretty, pretty_N. case_decide.
  - by repeat constructor.
  - apply pretty_N_go_no_colon. constructor.
Qed.

Lemma decimal_no_colon z : Forall (fun c => c <> 58%N) (decimal z).
Proof.
  unfold decimal. destruct z as [|p|p]; unfold pretty, pretty_Z.
  - by repeat constructor.
  - apply pretty_N_no_colon.
  - rewrite lit_app. apply Forall_app. split; [by repeat constructor|].
    apply pretty_N_no_colon.
Qed.

Lemma decimal_inj a b : decimal a = decimal b -> a = b.
Proof. unfold decimal. intros H%lit_inj. by apply (inj pretty). Qed.

(** A separator that occurs in neither left part splits in one way only. *)
Lemma split_at_separator (sep : char16) a a' b b' :
  Forall (fun c => c <> sep) a -> Forall (fun c => c <> sep) a' ->
  a ++ sep :: b = a' ++ sep :: b' -> a = a' /\ b = b'.
Proof.
  revert a'. induction a as [|x a IH]; intros [|x' a'] Ha Ha' Heq.
  - by injection Heq.
  - injection Heq as <- _. by apply Forall_cons in Ha' as [? _].
  - injection Heq as -> _. by apply Forall_cons in Ha as [? _].
  - injection Heq as <- Heq. apply Forall_cons in Ha as [_ Ha].
    apply Forall_cons in Ha' as [_ Ha'].
    destruct (IH a' Ha Ha' Heq) as [-> ->]. done.
Qed.

(** X3. Two cache keys are equal exactly when the content hashes are equal
    and the task hashes are equal: the colon keeps the two numbers apart. *)
Theorem createCacheKey_separates content task content' task' :
  FilterService.createCacheKey content task
  = FilterService.createCacheKey content' task'
  <-> FilterService.simpleHash content = FilterService.simpleHash content'
      /\ FilterService.simpleHash task = FilterService.simpleHash task'.
Proof.
  unfold FilterService.createCacheKey. split.
  - change (lit ":") with [58%N]. simpl. intros Heq.
    apply split_at_separator in Heq as [H1 H2];
      auto using decimal_no_colon, decimal_inj.
  - by intros [-> ->].
Qed.

(** ** Content relevance filter: the remaining paths *)

Lemma trimStart_snoc_kept l c :
  isWhiteSpace c = false -> trimStart (l ++ [c]) <> [].
Proof.
  intros Hc. induction l as [|x l IH]; simpl.
  - by rewrite Hc.
  - by destruct (isWhiteSpace x).
Qed.

Lemma trim_keeps_leading_text c s :
  isWhiteSpace c = false -> trim (c :: s) <> [].
Proof.
  intros Hc. unfold trim. cbn [trimStart]. rewrite Hc. cbn [rev].
  intros H. apply (f_equal (@rev char16)) in H.
  rewrite rev_involutive in H.
  by apply (trimStart_snoc_kept (rev s) c Hc).
Qed.

Lemma not_blank content :
  trim content <> [] ->
  (jsstring_eqb content [] || jsstring_eqb (trim content) [])%bool = false.
Proof.
  intros H. unfold jsstring_eqb. apply orb_false_iff.
  split; apply bool_decide_eq_false; [|done].
  intros ->. by apply H.
Qed.

Section ContentPaths.

Context (generateText : list FilterService.request -> FilterService.request
                        -> option jsstring).

Local Abbreviation filterRelevantContent :=
  (FilterService.filterRelevantContent generateText).

(** X4. Content that is not blank, shorter than 500 code units and not in
    the cache comes back unchanged, and the service is left as it was: no
    request to the oracle, no cache entry. *)
Theorem short_content_passes_unchanged content task st :
  trim content <> [] ->
  (length content < 500)%nat ->
  FilterService.taskCache st
    !! FilterService.createCacheKey content task = None ->
  filterRelevantContent content task st = (content, st).
Proof.
  intros Htext Hshort Hmiss.
  unfold FilterService.filterRelevantContent,
    FilterService.contentBeforeAwait.
  rewrite (not_blank _ Htext), Hmiss.
  by destruct (Nat.ltb_spec (length content) 500); [|lia].
Qed.

(** X5. When long content misses the cache and the oracle answers, the
    answer is returned, it is stored under the key of this content and
    task, every other cache entry is untouched, and exactly one request
    (temperature 0, no token limit) has been sent. *)
Theorem oracle_answer_is_returned_and_cached content task st text :
  trim content <> [] ->
  (500 <= length content)%nat ->
  FilterService.taskCache st
    !! FilterService.createCacheKey content task = None ->
  generateText (FilterService.oracleCalls st)
    (FilterService.contentRequest content task) = Some text ->
  exists st',
    filterRelevantContent content task st = (text, st')
    /\ FilterService.taskCache st'
         !! FilterService.createCacheKey content task = Some text
    /\ (forall k, k <> FilterService.createCacheKey content task ->
                  FilterService.taskCache st' !! k
                  = FilterService.taskCache st !! k)
    /\ FilterService.oracleCalls st'
       = FilterService.oracleCalls st
           ++ [{| FilterService.prompt :=
                    FilterService.contentPrompt content task;
                  FilterService.temperature := 0;
                  FilterService.maxTokens := None |}].
Proof.
  intros Htext Hlong Hmiss Hanswer.
  unfold FilterService.filterRelevantContent,
    FilterService.contentBeforeAwait, FilterService.callOracle.
  rewrite (not_blank _ Htext), Hmiss.
  destruct (Nat.ltb_spec (length content) 500); [lia|].
  rewrite Hanswer. cbn. eexists. split; [reflexivity|]. cbn. split_and!.
  - apply lookup_insert_eq.
  - intros k Hk. by apply lookup_insert_ne.
  - done.
Qed.

(** X6. A call never removes or changes a cache entry, and it sends at most
    one request to the oracle. *)
Theorem cache_only_grows content task st :
  let st' := snd (filterRelevantContent content task st) in
  FilterService.taskCache st ⊆ FilterService.taskCache st'
  /\ (FilterService.oracleCalls st' = FilterService.oracleCalls st
      \/ exists req,
           FilterService.oracleCalls st'
           = FilterService.oracleCalls st ++ [req]).
Proof.
  unfold FilterService.filterRelevantContent, FilterService.callOracle.
  destruct (FilterService.contentBeforeAwait _ _ _)
    as [r|[cacheKey req]] eqn:Hsync; cbn.
  - split; [done|by left].
  - apply contentBeforeAwait_inr in Hsync as (_ & _ & Hmiss & _).
    destruct (generateText _ _); cbn; (split; [|right; by exists req]).
    + by apply insert_subseteq.
    + done.
Qed.

(** X7. The key is built from 32-bit hashes, so different contents can
    share it: for every common remainder, the contents that begin with Aa
    and with BB do. Once the first has been pruned by the oracle, a call
    for the second returns the text pruned from the first, without asking
    the oracle. *)
Theorem colliding_content_gets_cached_text remainder task st text :
  let first := lit "Aa" ++ remainder in
  let second := lit "BB" ++ remainder in
  (498 <= length remainder)%nat ->
  FilterService.taskCache st
    !! FilterService.createCacheKey first task = None ->
  generateText (FilterService.oracleCalls st)
    (FilterService.contentRequest first task) = Some text ->
  first <> second
  /\ exists st1,
       filterRelevantContent first task st = (text, st1)
       /\ filterRelevantContent second task st1 = (text, st1).
Proof.
  intros first second Hlen Hmiss Hanswer. split; [done|].
  assert (Hkey : FilterService.createCacheKey second task
                 = FilterService.createCacheKey first task).
  { unfold FilterService.createCacheKey, first, second.
    by rewrite !simpleHash_app. }
  assert (Hfirst : trim first <> []) by by apply trim_keeps_leading_text.
  assert (Hsecond : trim second <> []) by by apply trim_keeps_leading_text.
  unfold FilterService.filterRelevantContent at 1.
  unfold FilterService.contentBeforeAwait, FilterService.callOracle.
  rewrite (not_blank _ Hfirst), Hmiss.
  destruct (Nat.ltb_spec (length first) 500) as [Hshort|_].
  { unfold first in Hshort. rewrite length_app in Hshort.
    simpl in Hshort. lia. }
  rewrite Hanswer. cbn. eexists. split; [reflexivity|].
  unfold FilterService.filterRelevantContent.
  cbn [FilterService.taskCache].
  rewrite (contentBeforeAwait_hit _ _ _ text (not_blank _ Hsecond)); [done|].
  rewrite Hkey. apply lookup_insert_eq.
Qed.

End ContentPaths.

(** ** File relevance filter: requests and verdicts *)

Lemma afterFirstOpen_Some text rest :
  FilterService.afterFirstOpen text = Some rest
  <-> exists pre, text = pre ++ 91%N :: rest /\ (91%N ∉ pre).
Proof.
  split.
  - revert rest. induction text as [|c text IH]; intros rest; [done|].
    simpl. destruct (N.eqb_spec c 91) as [->|Hc].
    + intros [= ->]. exists []. split; [done|]. apply not_elem_of_nil.
    + intros (pre & -> & Hpre)%IH. exists (c :: pre). split; [done|].
      apply not_elem_of_cons. done.
  - intros (pre & -> & Hpre). induction pre as [|c pre IH]; simpl.
    + done.
    + apply not_elem_of_cons in Hpre as [Hc Hpre].
      destruct (N.eqb_spec c 91); [done|]. by apply IH.
Qed.

Lemma throughLastClose_None text :
  FilterService.throughLastClose text = None <-> 93%N ∉ text.
Proof.
  induction text as [|c text IH]; simpl.
  - split; [intros _; apply not_elem_of_nil|done].
  - destruct (FilterService.throughLastClose text) as [p|].
    + split; [done|]. intros [_ H]%not_elem_of_cons.
      by apply IH in H.
    + destruct (N.eqb_spec c 93) as [->|Hc].
      * split; [done|]. intros H. exfalso. apply H. by left.
      * split; [|done]. intros _. apply not_elem_of_cons.
        split; [done|]. by apply IH.
Qed.

Lemma throughLastClose_Some text m :
  FilterService.throughLastClose text = Some m
  <-> exists body post,
        text = body ++ 93%N :: post /\ (93%N ∉ post) /\ m = body ++ [93%N].
Proof.
  split.
  - revert m. induction text as [|c text IH]; intros m; [done|].
    simpl. destruct (FilterService.throughLastClose text) as [p|] eqn:Hrest.
    + intros [= <-]. destruct (IH p eq_refl) as (body & post & -> & Hpost & ->).
      by exists (c :: body), post.
    + destruct (N.eqb_spec c 93) as [->|Hc]; [|done].
      intros [= <-]. exists [], text. split_and!; [done| |done].
      by apply throughLastClose_None.
  - intros (body & post & -> & Hpost & ->).
    induction body as [|c body IH]; simpl.
    + apply throughLastClose_None in Hpost. by rewrite Hpost.
    + by rewrite IH.
Qed.

(** X8. The text handed to [JSON.parse] runs from the first opening bracket
    of the answer to its last closing bracket; there is none when no
    closing bracket follows the first opening one. *)
Theorem jsonMatch_first_open_to_last_close text m :
  FilterService.jsonMatch text = Some m
  <-> exists pre body post,
        text = pre ++ [91%N] ++ body ++ [93%N] ++ post
        /\ (91%N ∉ pre) /\ (93%N ∉ post)
        /\ m = [91%N] ++ body ++ [93%N].
Proof.
  unfold FilterService.jsonMatch. split.
  - destruct (FilterService.afterFirstOpen text) as [rest|] eqn:Hopen; [|done].
    apply afterFirstOpen_Some in Hopen as (pre & -> & Hpre).
    destruct (FilterService.throughLastClose rest) as [p|] eqn:Hclose; [|done].
    apply throughLastClose_Some in Hclose as (body & post & -> & Hpost & ->).
    intros [= <-]. by exists pre, body, post.
  - intros (pre & body & post & -> & Hpre & Hpost & ->).
    assert (Hopen : FilterService.afterFirstOpen
                      (pre ++ [91%N] ++ body ++ [93%N] ++ post)
                    = Some (body ++ 93%N :: post)).
    { apply afterFirstOpen_Some. by exists pre. }
    rewrite Hopen.
    assert (Hclose : FilterService.throughLastClose (body ++ 93%N :: post)
                     = Some (body ++ [93%N])).
    { apply throughLastClose_Some. by exists body, post. }
    by rewrite Hclose.
Qed.

Lemma arrayFilter_keeps_all {A} (cb : A -> nat -> option bool) l :
  (forall x j, cb x j = Some true) ->
  forall index, arrayFilter cb index l = Some l.
Proof.
  intros Hcb. induction l as [|x l IH]; intros index; [done|].
  simpl. by rewrite Hcb, IH.
Qed.

Section FileRequests.

Context (generateText : list FilterService.request -> FilterService.request
                        -> option jsstring).
Context (JSON_parse : jsstring -> option value).

Local Abbreviation filterRelevantFiles :=
  (FilterService.filterRelevantFiles generateText JSON_parse).

(** X9. With more than three files exactly one request is sent to the
    oracle, whatever comes back: the batched prompt, at temperature 0 and
    with at most 1024 tokens. The content cache is never touched by the file
    filter, for any number of files. *)
Theorem file_filter_asks_once files task st :
  let st' := snd (filterRelevantFiles files task st) in
  FilterService.taskCache st' = FilterService.taskCache st
  /\ ((3 < length files)%nat ->
      FilterService.oracleCalls st'
      = FilterService.oracleCalls st
          ++ [{| FilterService.prompt :=
                   FilterService.filesPrompt files task;
                 FilterService.temperature := 0;
                 FilterService.maxTokens := Some 1024 |}]).
Proof.
  unfold FilterService.filterRelevantFiles, FilterService.callOracle.
  destruct (Nat.eqb_spec (length files) 0); [split; [done|simpl; lia]|].
  destruct (Nat.leb_spec (length files) 3); [split; [done|simpl; lia]|].
  cbn zeta.
  destruct (generateText _ _) as [text|]; [|by split].
  destruct (FilterService.jsonMatch text) as [jsonText|]; [|by split].
  destruct (JSON_parse jsonText) as [filterData|]; [|by split].
  destruct (FilterService.applyVerdicts files filterData); by split.
Qed.

(** X10. When the parsed verdict list has no [null] entry and no entry
    whose [include] is exactly [false] (the empty list among them), every
    file is kept, in order, stamped with the score 1.0. *)
Theorem no_exclusion_keeps_every_file files task st text jsonText items :
  (3 < length files)%nat ->
  generateText (FilterService.oracleCalls st)
    (FilterService.filesRequest files task) = Some text ->
  FilterService.jsonMatch text = Some jsonText ->
  JSON_parse jsonText = Some (JArray items) ->
  Forall (fun v => ~ nullish v /\ ~ includeIsFalse v) items ->
  fst (filterRelevantFiles files task st) = map FilterService.stamp files.
Proof.
  intros Hlen Htext Hmatch Hparse Hitems.
  assert (Hnull : Forall (fun v => ~ nullish v) items).
  { eapply Forall_impl; [exact Hitems|]. by intros v [? _]. }
  unfold FilterService.filterRelevantFiles, FilterService.callOracle.
  destruct (Nat.eqb_spec (length files) 0); [lia|].
  destruct (Nat.leb_spec (length files) 3); [lia|].
  rewrite Htext, Hmatch, Hparse. unfold FilterService.applyVerdicts.
  rewrite arrayFilter_keeps_all; [done|].
  intros f j. destruct (keepFile_spec items f j Hnull) as ([] & -> & Hex);
    [done|].
  exfalso. destruct Hex as [Hex _].
  destruct (Hex eq_refl) as (pre & item & post & -> & _ & _ & Hfalse).
  apply Forall_app in Hitems as [_ Hitems].
  apply Forall_cons in Hitems as [[_ Hitem] _]. done.
Qed.

End FileRequests.

(** ** Assembler: composition *)

Lemma join_app sep (a b : list jsstring) :
  a <> [] -> b <> [] -> join sep (a ++ b) = join sep a ++ sep ++ join sep b.
Proof.
  intros Ha Hb. destruct a as [|p a]; [done|]. destruct b as [|q b]; [done|].
  change ((p :: a) ++ q :: b) with (p :: (a ++ q :: b)).
  rewrite !join_cons, flat_map_app. cbn [flat_map].
  by rewrite <- !app_assoc.
Qed.

Lemma formatOutput_nonempty contents :
  contents <> [] ->
  FormatterService.formatOutput contents
  = join FormatterService.separator (map FormatterService.section contents).
Proof. by destruct contents. Qed.

(** X11. Formatting two non-empty lists one after the other is formatting
    each and putting the separator between the two texts. *)
Theorem formatOutput_app first second :
  first <> [] -> second <> [] ->
  FormatterService.formatOutput (first ++ second)
  = FormatterService.formatOutput first ++ lit "---

" ++ FormatterService.formatOutput second.
Proof.
  intros Hfirst Hsecond.
  rewrite !formatOutput_nonempty by (by destruct first).
  rewrite map_app. apply join_app; by destruct first, second.
Qed.

(** ** The patterns of the file service *)

Lemma stripPrefix_Some p s rest : stripPrefix p s = Some rest <-> s = p ++ rest.
Proof.
  revert s. induction p as [|a p IH]; intros s; simpl.
  - split; congruence.
  - destruct s as [|b s]; [done|].
    destruct (N.eqb_spec a b) as [->|Hab].
    + rewrite IH. split; congruence.
    + split; [done|]. intros [= ? _]. done.
Qed.

Lemma firstSuccess_Some {A} (attempt : nat -> option A) counts a :
  firstSuccess attempt counts = Some a ->
  exists k, k ∈ counts /\ attempt k = Some a.
Proof.
  induction counts as [|k counts IH]; [done|]. simpl.
  destruct (attempt k) as [b|] eqn:Hk.
  - intros [= ->]. exists k. split; [by left|done].
  - intros (j & Hj & Ha)%IH. exists j. split; [by right|done].
Qed.

(** The first count that succeeds decides, when the earlier ones fail. *)
Lemma firstSuccess_skip {A} (attempt : nat -> option A) failing k later :
  Forall (fun j => attempt j = None) failing ->
  is_Some (attempt k) ->
  firstSuccess attempt (failing ++ k :: later) = attempt k.
Proof.
  intros Hfail [a Ha]. induction Hfail as [|j failing Hj _ IH]; simpl.
  - by rewrite Ha.
  - by rewrite Hj.
Qed.

(** What a match leaves is a suffix of the text. *)
Lemma matchHere_suffix p :
  forall s g rest, matchHere p s = Some (g, rest) -> exists pre, s = pre ++ rest.
Proof.
  induction p as [|[l|greedy least class group] p IH]; intros s g rest; simpl.
  - intros [= _ <-]. by exists [].
  - destruct (stripPrefix l s) as [s'|] eqn:Hl; [|done].
    apply stripPrefix_Some in Hl as ->.
    intros (pre & ->)%IH. exists (l ++ pre). by rewrite app_assoc.
  - intros (k & _ & Hk)%firstSuccess_Some.
    destruct (matchHere p (drop k s)) as [[g' rest']|] eqn:Hrest; [|done].
    injection Hk as _ <-. apply IH in Hrest as [pre Hpre].
    exists (take k s ++ pre). by rewrite <- app_assoc, <- Hpre, take_drop.
Qed.

(** A pattern that ends in a literal leaves the text right after an
    occurrence of that literal. *)
Lemma matchHere_ends_with_literal p l :
  forall s g rest,
    matchHere (p ++ [Chars l]) s = Some (g, rest) ->
    exists pre, s = pre ++ l ++ rest.
Proof.
  induction p as [|[l'|greedy least class group] p IH]; intros s g rest; simpl.
  - destruct (stripPrefix l s) as [s'|] eqn:Hl; [|done].
    apply stripPrefix_Some in Hl as ->. intros [= _ <-]. by exists [].
  - destruct (stripPrefix l' s) as [s'|] eqn:Hl; [|done].
    apply stripPrefix_Some in Hl as ->.
    intros (pre & ->)%IH. exists (l' ++ pre). by rewrite <- app_assoc.
  - intros (k & _ & Hk)%firstSuccess_Some.
    destruct (matchHere (p ++ [Chars l]) (drop k s)) as [[g' rest']|] eqn:Hrest;
      [|done].
    injection Hk as _ <-. apply IH in Hrest as [pre Hpre].
    exists (take k s ++ pre). by rewrite <- app_assoc, <- Hpre, take_drop.
Qed.

(** The shape of a text with a header block. *)
Lemma frontmatter_shape content g rest :
  matchHere frontmatterPattern content = Some (g, rest) ->
  exists mid, content = lit "---" ++ mid ++ [10%N] ++ rest.
Proof.
  change frontmatterPattern
    with ([Chars (lit "---")]
            ++ ([Repeat true 0 isWhiteSpace false; Chars [10%N];
                 Repeat false 0 anyChar true;
                 Chars (10%N :: lit "---"); Repeat true 0 isWhiteSpace false]
                  ++ [Chars [10%N]])).
  cbn [app matchHere].
  destruct (stripPrefix (lit "---") content) as [s'|] eqn:Hl; [|done].
  apply stripPrefix_Some in Hl as ->.
  intros H. apply (matchHere_ends_with_literal
                     [Repeat true 0 isWhiteSpace false; Chars [10%N];
                      Repeat false 0 anyChar true;
                      Chars (10%N :: lit "---");
                      Repeat true 0 isWhiteSpace false]) in H as [mid ->].
  by exists mid.
Qed.

Lemma split_nonempty sep s : split sep s <> [].
Proof.
  destruct s as [|c s]; [done|]. simpl.
  destruct (N.eqb c sep); [done|]. by destruct (split sep s).
Qed.

Lemma trimStart_idempotent s : trimStart (trimStart s) = trimStart s.
Proof.
  induction s as [|c s IH]; [done|]. simpl.
  destruct (isWhiteSpace c) eqn:Hc; [done|]. simpl. by rewrite Hc.
Qed.

Lemma trimStart_head s :
  trimStart s = [] \/ exists c s', trimStart s = c :: s' /\ isWhiteSpace c = false.
Proof.
  induction s as [|c s IH]; [by left|]. simpl.
  destruct (isWhiteSpace c) eqn:Hc; [done|]. right. by exists c, s.
Qed.

Lemma trimStart_snoc l c :
  isWhiteSpace c = false -> exists l', trimStart (l ++ [c]) = l' ++ [c].
Proof.
  intros Hc. induction l as [|x l IH]; simpl.
  - rewrite Hc. by exists [].
  - destruct (isWhiteSpace x); [done|]. by exists (x :: l).
Qed.

Lemma trim_idempotent s : trim (trim s) = trim s.
Proof.
  unfold trim. destruct (trimStart_head s) as [->|(c & s' & -> & Hc)]; [done|].
  cbn [rev]. destruct (trimStart_snoc (rev s') c Hc) as [l' Hl'].
  rewrite Hl'. rewrite rev_app_distr. cbn [rev app].
  cbn [trimStart]. rewrite Hc.
  change (c :: rev l') with ([c] ++ rev l').
  rewrite rev_app_distr, rev_involutive. cbn [rev app].
  rewrite <- Hl', trimStart_idempotent, Hl', rev_app_distr. done.
Qed.

Section Metadata.

Context (basename : jsstring -> jsstring).
Context (readFileContent : jsstring -> option jsstring).

Local Abbreviation extractMetadata :=
  (FileService.extractMetadata basename readFileContent).
Local Abbreviation getFileContent :=
  (FileService.getFileContent readFileContent).

(** X12. [getFileContent] only ever removes a leading block from a readable
    file: what it returns is the text of the file after a header, and a
    header that is removed starts with three dashes and ends with a line
    feed. *)
Theorem getFileContent_strips_only_a_header filePath content :
  readFileContent filePath = Some content ->
  exists header,
    content = header ++ getFileContent filePath
    /\ (header = [] \/ exists mid, header = lit "---" ++ mid ++ [10%N]).
Proof.
  intros Hread. unfold FileService.getFileContent,
    FileService.removeFrontmatter. rewrite Hread.
  destruct (matchHere frontmatterPattern content) as [[g rest]|] eqn:Hmatch.
  - apply frontmatter_shape in Hmatch as [mid ->].
    exists (lit "---" ++ mid ++ [10%N]). split; [|right; by exists mid].
    by rewrite <- !app_assoc.
  - exists []. split; [done|by left].
Qed.

(** X13. The two readers agree on what a header is: a file that
    [getFileContent] returns whole has no header for [extractMetadata]
    either, which then reports the name and the path only; so does a file
    that cannot be read. *)
Theorem no_header_no_metadata filePath :
  (readFileContent filePath = None
   \/ readFileContent filePath = Some (getFileContent filePath)) ->
  extractMetadata filePath
  = {| filename := basename filePath; path := filePath;
       title := None; tags := None; relevanceScore := None |}.
Proof.
  unfold FileService.extractMetadata, FileService.getFileContent,
    FileService.removeFrontmatter.
  intros [->|Hwhole]; [done|].
  destruct (readFileContent filePath) as [content|]; [|done].
  destruct (matchHere frontmatterPattern content) as [[g rest]|] eqn:Hmatch;
    [|done].
  exfalso. injection Hwhole as Hwhole.
  apply frontmatter_shape in Hmatch as [mid Hshape].
  rewrite <- Hwhole in Hshape. apply (f_equal length) in Hshape.
  rewrite !length_app in Hshape. cbn [length] in Hshape.
  unfold jsstring, char16 in *. lia.
Qed.

(** X14. Whatever the file holds, a reported title has no white space
    around it, and a reported tag list is never empty and holds tags
    without white space around them. *)
Theorem metadata_is_trimmed filePath :
  (forall t, title (extractMetadata filePath) = Some t -> trim t = t)
  /\ (forall ts, tags (extractMetadata filePath) = Some ts ->
                 ts <> [] /\ Forall (fun t => trim t = t) ts).
Proof.
  unfold FileService.extractMetadata, FileService.minimalMetadata.
  destruct (readFileContent filePath) as [content|]; [|by split].
  destruct (matchHere frontmatterPattern content) as [[[fm|] rest]|];
    [|by split..].
  cbn [title tags]. split.
  - intros t. destruct (exec titlePattern fm) as [[[t'|] ?]|]; [|done..].
    intros [= <-]. apply trim_idempotent.
  - intros ts. destruct (exec tagsPattern fm) as [[[ts'|] ?]|]; [|done..].
    intros [= <-]. split.
    + intros H%fmap_nil_inv. by apply split_nonempty in H.
    + apply Forall_fmap, Forall_forall. intros t _. apply trim_idempotent.
Qed.

End Metadata.

(** ** Header blocks of the usual form *)

Lemma stripPrefix_app p rest : stripPrefix p (p ++ rest) = Some rest.
Proof. by apply stripPrefix_Some. Qed.

Lemma run_anyChar s : run anyChar s = length s.
Proof. induction s as [|c s IH]; [done|]. simpl. by rewrite IH. Qed.

Lemma run_until class line others :
  Forall (fun c => class c = true) line ->
  match others with [] => True | o :: _ => class o = false end ->
  run class (line ++ others) = length line.
Proof.
  intros Hline Hothers. induction Hline as [|c line Hc _ IH]; simpl.
  - destruct others as [|o others]; [done|]. simpl. by rewrite Hothers.
  - by rewrite Hc, IH.
Qed.

Lemma seq_around j n :
  (j <= n)%nat -> seq 0 (S n) = seq 0 j ++ j :: seq (S j) (n - j).
Proof.
  intros Hj. replace (S n) with (j + S (n - j))%nat by lia.
  by rewrite seq_app.
Qed.

Lemma rev_seq_last a n : rev (seq a (S n)) = (a + n)%nat :: rev (seq a n).
Proof. by rewrite seq_S, rev_app_distr. Qed.

Lemma rev_seq_around j n :
  (j <= n)%nat ->
  rev (seq 0 (S n)) = rev (seq (S j) (n - j)) ++ j :: rev (seq 0 j).
Proof.
  intros Hj. rewrite (seq_around j n Hj), rev_app_distr. cbn [rev].
  by rewrite <- app_assoc.
Qed.

Lemma line_feed_is_white_space c : isWhiteSpace c = false -> N.eqb 10 c = false.
Proof.
  intros Hc. destruct (N.eqb_spec 10 c) as [<-|]; [|done].
  by vm_compute in Hc.
Qed.

(** No closing line starts inside a body that holds none. *)
Lemma no_fence_inside body rest i :
  noFence body -> (i < length body)%nat ->
  stripPrefix fence (drop i (body ++ fence ++ rest)) = None.
Proof.
  intros Hbody Hi.
  destruct (stripPrefix fence _) as [r|] eqn:Hstrip; [|done]. exfalso.
  apply stripPrefix_Some in Hstrip.
  rewrite drop_app_le in Hstrip by lia.
  assert (Hd : (0 < length (drop i body))%nat) by (rewrite length_drop; lia).
  unfold fence in Hstrip.
  change (lit "---") with [45%N; 45%N; 45%N] in Hstrip.
  destruct (drop i body) as [|d0 [|d1 [|d2 [|d3 d]]]] eqn:Hdrop;
    [simpl in Hd; lia|try discriminate Hstrip..|].
  injection Hstrip as -> -> -> -> _.
  apply (Hbody (take i body) d).
  rewrite <- (take_drop i body) at 1. by rewrite Hdrop.
Qed.

Lemma matchHere_Chars l p s :
  matchHere (Chars l :: p) s
  = match stripPrefix l s with
    | Some s' => matchHere p s'
    | None => None
    end.
Proof. reflexivity. Qed.

Lemma matchHere_Repeat greedy least class group p s :
  matchHere (Repeat greedy least class group :: p) s
  = firstSuccess
      (fun k =>
         match matchHere p (drop k s) with
         | Some (g, rest) => Some (if group then Some (take k s) else g, rest)
         | None => None
         end)
      (if greedy then rev (seq least (S (run class s) - least))
       else seq least (S (run class s) - least)).
Proof. reflexivity. Qed.

(** White space up to a line feed, when the line feed is followed by text:
    the quantifier gives the line feed back. *)
Lemma white_space_then_line_feed p text :
  startsWithText text ->
  matchHere (Repeat true 0 isWhiteSpace false :: Chars [10%N] :: p)
    (10%N :: text)
  = matchHere p text.
Proof.
  intros Htext. rewrite matchHere_Repeat.
  assert (Hrun : run isWhiteSpace (10%N :: text) = 1%nat).
  { apply (run_until isWhiteSpace [10%N] text); [by repeat constructor|].
    by destruct text. }
  rewrite Hrun. change (rev (seq 0 (2 - 0))) with [1%nat; 0%nat].
  cbn [firstSuccess]. rewrite !matchHere_Chars, drop_0.
  change (drop 1 (10%N :: text)) with (drop 0 text). rewrite drop_0.
  assert (Hnone : stripPrefix [10%N] text = None).
  { destruct text as [|t text]; [done|]. cbn [stripPrefix].
    by rewrite (line_feed_is_white_space t Htext). }
  rewrite Hnone. change (stripPrefix [10%N] (10%N :: text)) with (Some text).
  by destruct (matchHere p text) as [[g rest]|].
Qed.

(** The lazy group stops at the first place where the rest of the pattern
    matches. *)
Lemma lazy_group_until p body rest :
  (forall i, (i < length body)%nat ->
             matchHere p (drop i (body ++ rest)) = None) ->
  is_Some (matchHere p rest) ->
  matchHere (Repeat false 0 anyChar true :: p) (body ++ rest)
  = match matchHere p rest with
    | Some (_, remaining) => Some (Some body, remaining)
    | None => None
    end.
Proof.
  intros Hbefore Hthere. rewrite matchHere_Repeat, run_anyChar, Nat.sub_0_r.
  rewrite (seq_around (length body) (length (body ++ rest)))
    by (rewrite length_app; lia).
  rewrite firstSuccess_skip.
  - by rewrite drop_app_length, take_app_length.
  - apply Forall_forall. intros i Hi%elem_of_seq.
    rewrite Hbefore; [done|lia].
  - rewrite drop_app_length. destruct Hthere as [[g remaining] ->]. done.
Qed.

(** The header pattern on a file of the usual form: the group is the body,
    what is left is the document. *)
Lemma header_of_usual_form c body text :
  isWhiteSpace c = false -> noFence (c :: body) -> startsWithText text ->
  matchHere frontmatterPattern (withHeader (c :: body) text)
  = Some (Some (c :: body), text).
Proof.
  intros Hc Hbody Htext. unfold frontmatterPattern, withHeader.
  rewrite matchHere_Chars, stripPrefix_app.
  change ([10%N] ++ (c :: body) ++ fence ++ [10%N] ++ text)
    with (10%N :: ((c :: body) ++ fence ++ [10%N] ++ text)).
  rewrite white_space_then_line_feed by done.
  assert (Hclose : matchHere
                     [Chars (10%N :: lit "---");
                      Repeat true 0 isWhiteSpace false; Chars [10%N]]
                     (fence ++ [10%N] ++ text)
                   = Some (None, text)).
  { rewrite matchHere_Chars. fold fence. rewrite stripPrefix_app.
    change ([10%N] ++ text) with (10%N :: text).
    by rewrite white_space_then_line_feed. }
  rewrite lazy_group_until.
  - by rewrite Hclose.
  - intros i Hi. rewrite matchHere_Chars. fold fence.
    by rewrite no_fence_inside.
  - by rewrite Hclose.
Qed.

(** The white space after the closing dashes is taken up to its last line
    feed. *)
Lemma closing_white_space gap indent text :
  Forall (fun w => isWhiteSpace w = true) gap ->
  Forall (fun w => isWhiteSpace w = true) indent ->
  10%N ∉ indent ->
  startsWithText text ->
  matchHere [Repeat true 0 isWhiteSpace false; Chars [10%N]]
    (gap ++ [10%N] ++ indent ++ text)
  = Some (None, indent ++ text).
Proof.
  intros Hgap Hindent Hfeed Htext. rewrite matchHere_Repeat.
  assert (Hrun : run isWhiteSpace (gap ++ [10%N] ++ indent ++ text)
                 = length (gap ++ [10%N] ++ indent)).
  { replace (gap ++ [10%N] ++ indent ++ text)
      with ((gap ++ [10%N] ++ indent) ++ text) by (by rewrite <- !app_assoc).
    apply run_until; [|by destruct text].
    apply Forall_app. split; [done|]. by constructor. }
  rewrite Hrun, Nat.sub_0_r.
  rewrite (rev_seq_around (length gap))
    by (rewrite !length_app; lia).
  assert (Hhere : matchHere [Chars [10%N]]
                    (drop (length gap) (gap ++ [10%N] ++ indent ++ text))
                  = Some (None, indent ++ text)).
  { rewrite drop_app_length, matchHere_Chars. cbn [app stripPrefix].
    by rewrite N.eqb_refl. }
  rewrite firstSuccess_skip.
  - by rewrite Hhere.
  - apply Forall_forall. intros k Hk. apply list_elem_of_In in Hk.
    rewrite <- in_rev, in_seq in Hk.
    rewrite matchHere_Chars.
    replace k with (length (gap ++ [10%N]) + (k - S (length gap)))%nat
      by (rewrite length_app; simpl; lia).
    rewrite (app_assoc gap), <- drop_drop, drop_app_length.
    assert (Hnone : stripPrefix [10%N]
                      (drop (k - S (length gap)) (indent ++ text)) = None).
    { destruct (stripPrefix [10%N] _) as [r|] eqn:Hstrip; [|done].
      exfalso. apply stripPrefix_Some in Hstrip.
      destruct (decide (k - S (length gap) < length indent)%nat) as [Hin|Hout].
      - rewrite drop_app_le in Hstrip by lia.
        apply Hfeed. rewrite <- (take_drop (k - S (length gap)) indent).
        apply elem_of_app. right.
        destruct (drop (k - S (length gap)) indent) as [|d ds] eqn:Hd.
        + apply (f_equal length) in Hd. rewrite length_drop in Hd.
          simpl in Hd. lia.
        + injection Hstrip as -> _. by left.
      - rewrite drop_app_ge in Hstrip by lia.
        destruct text as [|t text].
        + by rewrite drop_nil in Hstrip.
        + destruct (k - S (length gap) - length indent)%nat eqn:Hz.
          * injection Hstrip as -> _. by vm_compute in Htext.
          * rewrite !length_app in Hk. simpl in Hk.
            unfold jsstring, char16 in *. lia. }
    by rewrite Hnone.
  - by rewrite Hhere.
Qed.

(** The header pattern on a file of the usual form with white space after
    the closing dashes. *)
Lemma header_with_gap c body gap indent text :
  isWhiteSpace c = false -> noFence (c :: body) ->
  Forall (fun w => isWhiteSpace w = true) gap ->
  Forall (fun w => isWhiteSpace w = true) indent ->
  10%N ∉ indent ->
  startsWithText text ->
  matchHere frontmatterPattern (withHeaderAndGap (c :: body) gap indent text)
  = Some (Some (c :: body), indent ++ text).
Proof.
  intros Hc Hbody Hgap Hindent Hfeed Htext.
  unfold frontmatterPattern, withHeaderAndGap.
  rewrite matchHere_Chars, stripPrefix_app.
  change ([10%N] ++ (c :: body) ++ fence ++ gap ++ [10%N] ++ indent ++ text)
    with (10%N :: ((c :: body) ++ fence ++ gap ++ [10%N] ++ indent ++ text)).
  rewrite white_space_then_line_feed by done.
  assert (Hclose : matchHere
                     [Chars (10%N :: lit "---");
                      Repeat true 0 isWhiteSpace false; Chars [10%N]]
                     (fence ++ gap ++ [10%N] ++ indent ++ text)
                   = Some (None, indent ++ text)).
  { rewrite matchHere_Chars. fold fence. rewrite stripPrefix_app.
    by apply closing_white_space. }
  rewrite lazy_group_until.
  - by rewrite Hclose.
  - intros i Hi. rewrite matchHere_Chars. fold fence.
    by rewrite no_fence_inside.
  - by rewrite Hclose.
Qed.

Lemma exec_here p s g rest :
  matchHere p s = Some (g, rest) ->
  exec p s = Some (g, take (length s - length rest) s).
Proof. intros H. destruct s; simpl; by rewrite H. Qed.

(** A greedy group takes the whole line when nothing follows it in the
    pattern. *)
Lemma greedy_group_takes_the_line least class line others :
  Forall (fun c => class c = true) line ->
  match others with [] => True | o :: _ => class o = false end ->
  (least <= length line)%nat ->
  matchHere [Repeat true least class true] (line ++ others)
  = Some (Some line, others).
Proof.
  intros Hline Hothers Hleast. rewrite matchHere_Repeat, run_until by done.
  replace (S (length line) - least)%nat with (S (length line - least)) by lia.
  rewrite rev_seq_last.
  replace (least + (length line - least))%nat with (length line) by lia.
  cbn [firstSuccess matchHere].
  by rewrite take_app_length, drop_app_length.
Qed.

(** One white-space unit before text is skipped. *)
Lemma white_space_skipped p w text :
  isWhiteSpace w = true -> startsWithText text ->
  is_Some (matchHere p text) ->
  matchHere (Repeat true 0 isWhiteSpace false :: p) (w :: text)
  = matchHere p text.
Proof.
  intros Hw Htext [[g rest] Hp]. rewrite matchHere_Repeat.
  assert (Hrun : run isWhiteSpace (w :: text) = 1%nat).
  { apply (run_until isWhiteSpace [w] text); [by repeat constructor|].
    by destruct text. }
  rewrite Hrun. change (rev (seq 0 (2 - 0))) with [1%nat; 0%nat].
  cbn [firstSuccess]. change (drop 1 (w :: text)) with (drop 0 text).
  by rewrite drop_0, Hp.
Qed.

Section Headers.

Context (basename : jsstring -> jsstring).
Context (readFileContent : jsstring -> option jsstring).

Local Abbreviation extractMetadata :=
  (FileService.extractMetadata basename readFileContent).
Local Abbreviation getFileContent :=
  (FileService.getFileContent readFileContent).

(** X15. A header block of the usual form is removed exactly, with the
    white space that follows its closing dashes up to the last line feed:
    for a file made of the opening line, a body that starts with text and
    holds no line of three dashes, the closing dashes, white space [gap], a
    line feed, white space [indent] without line feed, and a document that
    does not start with white space, [getFileContent] returns [indent]
    followed by the document. *)
Theorem usual_header_is_removed filePath c body gap indent text :
  isWhiteSpace c = false ->
  noFence (c :: body) ->
  Forall (fun w => isWhiteSpace w = true) gap ->
  Forall (fun w => isWhiteSpace w = true) indent ->
  10%N ∉ indent ->
  startsWithText text ->
  readFileContent filePath
  = Some (withHeaderAndGap (c :: body) gap indent text) ->
  getFileContent filePath = indent ++ text.
Proof.
  intros Hc Hbody Hgap Hindent Hfeed Htext Hread.
  unfold FileService.getFileContent, FileService.removeFrontmatter.
  by rewrite Hread, header_with_gap.
Qed.

(** X16. A header whose first line is [title: ] followed by a line of text
    gives that text, trimmed, as the title. *)
Theorem title_line_is_reported filePath t0 line others text :
  let body := lit "title: " ++ (t0 :: line) ++ others in
  isWhiteSpace t0 = false ->
  Forall (fun c => dot c = true) (t0 :: line) ->
  match others with [] => True | o :: _ => dot o = false end ->
  noFence body ->
  startsWithText text ->
  readFileContent filePath = Some (withHeader body text) ->
  title (extractMetadata filePath) = Some (trim (t0 :: line)).
Proof.
  intros body Ht0 Hline Hothers Hbody Htext Hread.
  unfold FileService.extractMetadata. rewrite Hread.
  assert (Hhead : matchHere frontmatterPattern (withHeader body text)
                  = Some (Some body, text)).
  { exact (header_of_usual_form 116%N
             (lit "itle: " ++ (t0 :: line) ++ others) text
             eq_refl Hbody Htext). }
  rewrite Hhead. cbn [title].
  assert (Htitle : matchHere titlePattern body
                   = Some (Some (t0 :: line), others)).
  { unfold titlePattern, body.
    change (lit "title: " ++ (t0 :: line) ++ others)
      with (lit "title:" ++ 32%N :: ((t0 :: line) ++ others)).
    rewrite matchHere_Chars, stripPrefix_app.
    assert (Hgroup : matchHere [Repeat true 1 dot true]
                       ((t0 :: line) ++ others)
                     = Some (Some (t0 :: line), others)).
    { apply greedy_group_takes_the_line; [done..|simpl; lia]. }
    rewrite white_space_skipped; [done..|by rewrite Hgroup]. }
  by rewrite (exec_here _ _ _ _ Htitle).
Qed.

End Headers.

(** ** Discovery of the markdown files *)

Lemma entry_induction (P : entry -> Prop) :
  P FileEntry -> P OtherEntry -> P (DirEntry None) ->
  (forall entries, Forall (fun ne => P ne.2) entries ->
                   P (DirEntry (Some entries))) ->
  forall e, P e.
Proof.
  intros Hfile Hother Hnone Hdir. fix IH 1.
  intros [|[entries|]|]; [done| |done|done].
  apply Hdir.
  refine ((fix go (l : list (jsstring * entry)) : Forall (fun ne => P ne.2) l :=
             match l with
             | [] => List.Forall_nil _
             | (n, sub) :: l' =>
                 @List.Forall_cons _ (fun ne => P ne.2) (n, sub) l'
                   (IH sub) (go l')
             end) entries).
Qed.

Lemma located_nil joinPath dir p : ~ located joinPath dir [] p.
Proof. inversion 1 as [??? Hin|????? Hin]; by apply elem_of_nil in Hin. Qed.

Lemma located_cons joinPath dir ne l p :
  located joinPath dir (ne :: l) p
  <-> located joinPath dir [ne] p \/ located joinPath dir l p.
Proof.
  split.
  - inversion 1 as [??? Hin Hmd|????? Hin Hsub]; subst;
      apply elem_of_cons in Hin as [Heq|Hin]; try subst ne.
    + left. apply located_here; [by left|done].
    + right. by apply located_here.
    + left. eapply located_below; [by left|done].
    + right. by eapply located_below.
  - intros [H|H]; inversion H as [??? Hin Hmd|????? Hin Hsub]; subst.
    + apply list_elem_of_singleton in Hin as <-.
      apply located_here; [by left|done].
    + apply list_elem_of_singleton in Hin as <-.
      eapply located_below; [by left|done].
    + apply located_here; [by right|done].
    + eapply located_below; [by right|done].
Qed.

Lemma unreadable_nil : ~ unreadableIn [].
Proof. inversion 1 as [?? Hin|??? Hin]; by apply elem_of_nil in Hin. Qed.

Lemma unreadable_cons ne l :
  unreadableIn (ne :: l) <-> unreadableIn [ne] \/ unreadableIn l.
Proof.
  split.
  - inversion 1 as [?? Hin|??? Hin Hsub]; subst;
      apply elem_of_cons in Hin as [Heq|Hin]; try subst ne.
    + left. eapply unreadable_here. by left.
    + right. by eapply unreadable_here.
    + left. eapply unreadable_below; [by left|done].
    + right. by eapply unreadable_below.
  - intros [H|H]; inversion H as [?? Hin|??? Hin Hsub]; subst.
    + apply list_elem_of_singleton in Hin as <-.
      eapply unreadable_here. by left.
    + apply list_elem_of_singleton in Hin as <-.
      eapply unreadable_below; [by left|done].
    + eapply unreadable_here. by right.
    + eapply unreadable_below; [by right|done].
Qed.

Section Discovery.

Context (joinPath : jsstring -> jsstring -> jsstring).

Local Abbreviation scanEntry := (FileService.scanEntry joinPath).
Local Abbreviation scanDirectory := (FileService.scanDirectory joinPath).

Lemma scanEntry_directory dir name entries :
  scanEntry dir name (DirEntry (Some entries))
  = scanDirectory (joinPath dir name) entries.
Proof.
  simpl. induction entries as [|[n sub] entries IH]; [done|].
  simpl. by rewrite IH.
Qed.

(** The walk of a list of entries, from the walk of each of them. *)
Lemma scanDirectory_scanned entries :
  Forall (fun ne => forall dir,
            scanned joinPath dir [ne] (scanEntry dir ne.1 ne.2)) entries ->
  forall dir, scanned joinPath dir entries (scanDirectory dir entries).
Proof.
  induction 1 as [|[n sub] entries Hhead _ IH]; intros dir.
  - split; [|apply unreadable_nil]. intros p. split.
    + by intros ?%elem_of_nil.
    + by intros ?%located_nil.
  - specialize (Hhead dir). specialize (IH dir). cbn [fst snd] in Hhead.
    cbn [FileService.scanDirectory]. unfold scanned in *.
    destruct (scanEntry dir n sub) as [found|].
    + destruct (scanDirectory dir entries) as [more|].
      * destruct Hhead as [Hfound Hok], IH as [Hmore Hok']. split.
        -- intros p. rewrite elem_of_app, located_cons, Hfound, Hmore. done.
        -- rewrite unreadable_cons. tauto.
      * apply unreadable_cons. by right.
    + apply unreadable_cons. by left.
Qed.

Lemma scanEntry_scanned e :
  forall dir name, scanned joinPath dir [(name, e)] (scanEntry dir name e).
Proof.
  induction e as [| | |entries IH] using entry_induction; intros dir name.
  - cbn [FileService.scanEntry scanned]. split.
    + intros p. split.
      * destruct (isMarkdown name) eqn:Hmd; [|by intros ?%elem_of_nil].
        intros ->%list_elem_of_singleton.
        apply located_here; [by left|done].
      * inversion 1 as [??? Hin Hmd|????? Hin Hsub]; subst;
          apply list_elem_of_singleton in Hin; [|done].
        injection Hin as ->. rewrite Hmd. by left.
    + inversion 1 as [?? Hin|??? Hin Hsub];
        by apply list_elem_of_singleton in Hin.
  - cbn [FileService.scanEntry scanned]. split.
    + intros p. split; [by intros ?%elem_of_nil|].
      inversion 1 as [??? Hin Hmd|????? Hin Hsub];
        by apply list_elem_of_singleton in Hin.
    + inversion 1 as [?? Hin|??? Hin Hsub];
        by apply list_elem_of_singleton in Hin.
  - cbn [FileService.scanEntry scanned]. eapply unreadable_here. by left.
  - rewrite scanEntry_directory.
    pose proof (scanDirectory_scanned entries) as Hlist.
    assert (Hall : Forall (fun ne => forall d,
                             scanned joinPath d [ne] (scanEntry d ne.1 ne.2))
                     entries).
    { eapply Forall_impl; [exact IH|]. intros [n sub] H d. apply H. }
    specialize (Hlist Hall (joinPath dir name)). unfold scanned in *.
    destruct (scanDirectory (joinPath dir name) entries) as [files|].
    + destruct Hlist as [Hfiles Hok]. split.
      * intros p. rewrite Hfiles. split.
        -- intros Hp. eapply located_below; [by left|done].
        -- inversion 1 as [??? Hin Hmd|????? Hin Hsub]; subst;
             apply list_elem_of_singleton in Hin; [done|].
           by injection Hin as -> ->.
      * inversion 1 as [?? Hin|??? Hin Hsub]; subst;
          apply list_elem_of_singleton in Hin; [done|].
        injection Hin as -> ->. done.
    + eapply unreadable_below; [by left|done].
Qed.

Lemma scanDirectory_walk dir entries :
  scanned joinPath dir entries (scanDirectory dir entries).
Proof.
  apply scanDirectory_scanned, Forall_forall.
  intros [n sub] _ d. apply scanEntry_scanned.
Qed.

(** X17. When discovery succeeds, the paths it returns are exactly the
    paths of the regular files whose name ends in [.md] or [.mdc], at any
    depth under the root; directories and other entries are never
    returned, whatever their name. *)
Theorem discovery_finds_the_markdown_files docsPath entries files :
  FileService.getMarkdownFiles joinPath docsPath (Some entries) = Some files ->
  forall p, p ∈ files <-> located joinPath docsPath entries p.
Proof.
  cbn [FileService.getMarkdownFiles]. intros Hscan.
  pose proof (scanDirectory_walk docsPath entries) as Hwalk.
  rewrite Hscan in Hwalk. by destruct Hwalk.
Qed.

(** X18. Discovery throws exactly when the root or some directory below it
    cannot be listed: one unreadable directory loses every file. *)
Theorem discovery_fails_on_an_unreadable_directory docsPath root :
  FileService.getMarkdownFiles joinPath docsPath root = None
  <-> root = None
      \/ exists entries, root = Some entries /\ unreadableIn entries.
Proof.
  destruct root as [entries|]; cbn [FileService.getMarkdownFiles].
  - pose proof (scanDirectory_walk docsPath entries) as Hwalk.
    destruct (scanDirectory docsPath entries) as [files|]; split.
    + done.
    + intros [?|(entries' & [= <-] & Hbad)]; [done|].
      by destruct Hwalk.
    + intros _. right. by exists entries.
    + done.
  - split; [by left|done].
Qed.

End Discovery.

(** ** Content stage: stored values and settled documents *)

Section ContentStageValues.

Context (getFileContent : jsstring -> jsstring).
Context (files : list DocMetadata) (task : jsstring).

Local Abbreviation step := (CodeRulesHandler.step getFileContent files task).
Local Abbreviation inv := (schedInvariant getFileContent files task).

(** One step leaves a stored value where it is: a step only writes the
    slot of a task that is still running. *)
Lemma step_keeps_values s s' slot v :
  inv s -> step s s' ->
  CodeRulesHandler.values s !! slot = Some (Some v) ->
  CodeRulesHandler.values s' !! slot = Some (Some v).
Proof.
  intros (_ & _ & Hpend & _ & _) Hstep Hslot.
  assert (Hrunning : forall b1 b2 j ph,
            CodeRulesHandler.active s = b1 ++ (j, ph) :: b2 -> j <> slot).
  { intros b1 b2 j ph Hb ->. destruct (Hpend slot) as [_ Hnone].
    - unfold pending. rewrite Hb, fmap_app. apply elem_of_app. right.
      apply elem_of_app. right. by left.
    - congruence. }
  step_cases Hstep; cbn [CodeRulesHandler.values]; try done.
  - rewrite list_lookup_insert_ne; [done|]. by eapply Hrunning.
  - rewrite list_lookup_insert_ne; [done|]. by eapply Hrunning.
Qed.

Lemma run_keeps_values s s' i r :
  inv s -> rtc step s s' ->
  CodeRulesHandler.values s !! i = Some (Some r) ->
  CodeRulesHandler.values s' !! i = Some (Some r).
Proof.
  intros Hinv Hrun. revert Hinv.
  induction Hrun as [|s s1 s' Hstep _ IH]; [done|].
  intros Hinv Hi. apply IH; [by eapply inv_step|by eapply step_keeps_values].
Qed.

(** X19. A value that [Promise.all] has received stays: whatever the other
    tasks do afterwards, and whether their oracle calls succeed or fail,
    the entry of a finished file is never overwritten. *)
Theorem stored_values_stay cache0 s s' i r :
  rtc step (CodeRulesHandler.initial files cache0) s ->
  rtc step s s' ->
  CodeRulesHandler.values s !! i = Some (Some r) ->
  CodeRulesHandler.values s' !! i = Some (Some r).
Proof.
  intros Hreach Hrun Hi.
  eapply run_keeps_values; [by eapply inv_reachable|done..].
Qed.

Lemma quiet_step cache0 s s' :
  (forall f, f ∈ files -> settlesAtOnce cache0 getFileContent task f) ->
  quiet cache0 getFileContent files task s -> step s s' ->
  quiet cache0 getFileContent files task s'.
Proof.
  intros Hall (Hcache & Hphase & Hvalues) Hstep.
  step_cases Hstep; unfold quiet; cbn.
  - split_and!; [done| |done].
    intros j ph [Hin|Hin%list_elem_of_singleton]%elem_of_app;
      [by eapply Hphase|congruence].
  - split_and!; [done| |].
    + intros j ph Hin. apply (Hphase j). rewrite Hact.
      apply elem_of_app in Hin as [Hin|Hin]; apply elem_of_app;
        [by left|right; by right].
    + intros j r Hj. apply list_lookup_insert_Some in Hj
        as [(-> & [= <-] & _)|[_ Hj]]; [|by apply Hvalues].
      exists f. split; [done|]. unfold immediateResult.
      by rewrite <- Hcache, Hsync.
  - exfalso. destruct (Hall f) as [result Hresult].
    + by eapply list_elem_of_lookup_2.
    + rewrite <- Hcache in Hresult. congruence.
  - exfalso. assert (CodeRulesHandler.Filtering raw cacheKey
                     = CodeRulesHandler.Reading); [|done].
    apply (Hphase i). rewrite Hact. apply elem_of_app. right. by left.
Qed.

Lemma quiet_reachable cache0 s :
  (forall f, f ∈ files -> settlesAtOnce cache0 getFileContent task f) ->
  rtc step (CodeRulesHandler.initial files cache0) s ->
  quiet cache0 getFileContent files task s.
Proof.
  intros Hall. revert s. apply rtc_ind_r.
  - split_and!; [done|by intros ?? ?%elem_of_nil|].
    intros i r. cbn. intros [[=] _]%lookup_replicate.
  - intros s s' _ Hstep IH. by eapply quiet_step.
Qed.

(** X20. When the content of every file is blank, already cached or shorter
    than 500 code units, the outcome does not depend on the schedule: every
    completed run delivers the same array, in input order, and leaves the
    cache as it found it. *)
Theorem settled_documents_are_determined cache0 s :
  (forall f, f ∈ files -> settlesAtOnce cache0 getFileContent task f) ->
  rtc step (CodeRulesHandler.initial files cache0) s ->
  CodeRulesHandler.finished s ->
  CodeRulesHandler.cache s = cache0
  /\ CodeRulesHandler.Promise_all (CodeRulesHandler.values s)
     = Some (map (immediateResult cache0 getFileContent task) files).
Proof.
  intros Hall Hreach [Hq Hact].
  destruct (quiet_reachable cache0 s Hall Hreach) as (Hcache & _ & Hvalues).
  destruct (inv_reachable getFileContent files task cache0 s Hreach)
    as (Hlen & _ & _ & Hdone & _).
  split; [done|].
  destruct (Promise_all_complete
              (fun f r => r = immediateResult cache0 getFileContent task f)
              files (CodeRulesHandler.values s) Hlen) as (rs & -> & Hrs).
  - intros i f Hf. destruct (Hdone i) as (f' & r & Hf' & Hv & _).
    + by eapply lookup_lt_Some.
    + unfold pending. rewrite Hq, Hact. by intros ?%elem_of_nil.
    + exists r. split; [done|].
      destruct (Hvalues i r Hv) as (f'' & Hf'' & ->). congruence.
  - f_equal. clear -Hrs. induction Hrs as [|f r fs rs -> _ IH]; [done|].
    cbn. by rewrite IH.
Qed.

End ContentStageValues.

(** ** The bracket pattern, by the backtracking semantics *)

Lemma firstSuccess_none {A} (attempt : nat -> option A) counts :
  Forall (fun k => attempt k = None) counts ->
  firstSuccess attempt counts = None.
Proof. induction 1 as [|k counts Hk _ IH]; [done|]. simpl. by rewrite Hk. Qed.

Lemma stripPrefix_absent (c : char16) s :
  c ∉ s -> forall k, stripPrefix [c] (drop k s) = None.
Proof.
  intros Hc k. destruct (stripPrefix [c] (drop k s)) as [r|] eqn:H; [|done].
  apply stripPrefix_Some in H. exfalso. apply Hc.
  rewrite <- (take_drop k s), H. apply elem_of_app. right. by left.
Qed.

(** Any text up to a closing bracket, greedily: up to the last one. *)
Lemma greedy_to_last_close rest :
  matchHere [Repeat true 0 anyChar false; Chars [93%N]] rest
  = match FilterService.throughLastClose rest with
    | Some m => Some (None, drop (length m) rest)
    | None => None
    end.
Proof.
  rewrite matchHere_Repeat, run_anyChar, Nat.sub_0_r.
  destruct (FilterService.throughLastClose rest) as [m|] eqn:Hclose.
  - apply throughLastClose_Some in Hclose as (body & post & -> & Hpost & ->).
    rewrite (rev_seq_around (length body)) by (rewrite length_app; lia).
    rewrite firstSuccess_skip.
    + rewrite matchHere_Chars, drop_app_length. cbn [stripPrefix].
      rewrite N.eqb_refl. cbn [matchHere].
      rewrite length_app. cbn [length].
      replace (length body + 1)%nat with (length (body ++ [93%N]))
        by (rewrite length_app; done).
      by rewrite (cons_middle 93%N body post), app_assoc, drop_app_length.
    + apply Forall_forall. intros k Hk. apply list_elem_of_In in Hk.
      rewrite <- in_rev, in_seq in Hk.
      rewrite matchHere_Chars.
      replace k with (length (body ++ [93%N]) + (k - S (length body)))%nat
        by (rewrite length_app; simpl; lia).
      rewrite (cons_middle 93%N body post), app_assoc, <- drop_drop.
      rewrite drop_app_length. by rewrite stripPrefix_absent.
    + rewrite matchHere_Chars, drop_app_length. cbn [stripPrefix].
      by rewrite N.eqb_refl.
  - apply throughLastClose_None in Hclose. apply firstSuccess_none.
    apply Forall_forall. intros k _.
    by rewrite matchHere_Chars, stripPrefix_absent.
Qed.

Lemma jsonPattern_at_open rest :
  matchHere jsonPattern (91%N :: rest)
  = match FilterService.throughLastClose rest with
    | Some m => Some (None, drop (length m) rest)
    | None => None
    end.
Proof.
  unfold jsonPattern. rewrite matchHere_Chars.
  change (stripPrefix (lit "[") (91%N :: rest)) with (Some rest).
  apply greedy_to_last_close.
Qed.

Lemma jsonPattern_elsewhere c rest :
  c <> 91%N -> matchHere jsonPattern (c :: rest) = None.
Proof.
  intros Hc. unfold jsonPattern. rewrite matchHere_Chars.
  change (lit "[") with [91%N]. cbn [stripPrefix].
  by destruct (N.eqb_spec 91 c) as [<-|].
Qed.

Lemma jsonPattern_without_close s : 93%N ∉ s -> exec jsonPattern s = None.
Proof.
  induction s as [|c s IH]; [done|].
  intros [Hc Hs]%not_elem_of_cons. cbn [exec].
  destruct (decide (c = 91%N)) as [->|Hopen].
  - rewrite jsonPattern_at_open.
    apply throughLastClose_None in Hs as Hnone. rewrite Hnone. by apply IH.
  - rewrite jsonPattern_elsewhere by done. by apply IH.
Qed.

(** X21. The closed form used for [text.match(/\[.*\]/s)] is what the
    backtracking semantics of the pattern gives: the same matched text, and
    no match in the same cases. *)
Theorem jsonMatch_is_the_pattern_match text :
  FilterService.jsonMatch text = snd <$> exec jsonPattern text.
Proof.
  unfold FilterService.jsonMatch.
  induction text as [|c text IH]; [done|]. cbn [exec].
  destruct (decide (c = 91%N)) as [->|Hopen].
  - cbn [FilterService.afterFirstOpen]. rewrite N.eqb_refl.
    rewrite jsonPattern_at_open.
    destruct (FilterService.throughLastClose text) as [m|] eqn:Hclose.
    + cbn. f_equal.
      apply throughLastClose_Some in Hclose as (body & post & -> & _ & ->).
      rewrite (cons_middle 93%N body post), app_assoc.
      rewrite drop_app_length, !length_app. cbn [length].
      change (91%N :: (body ++ [93%N]) ++ post)
        with ((91%N :: body ++ [93%N]) ++ post).
      symmetry. apply take_app_length'.
      cbn [length]. rewrite length_app. cbn [length].
      unfold jsstring, char16 in *. lia.
    + apply throughLastClose_None in Hclose.
      by rewrite jsonPattern_without_close.
  - cbn [FilterService.afterFirstOpen].
    destruct (N.eqb_spec c 91) as [->|_]; [done|].
    rewrite jsonPattern_elsewhere by done. apply IH.
Qed.

(** ** An unreadable file in the content stage *)

Section UnreadableFile.

Context (readFileContent : jsstring -> option jsstring).
Context (generateText : list FilterService.request -> FilterService.request
                        -> option jsstring).

(** X22. A file that cannot be read does not fail the request: its content
    is the inline marker, and for a path shorter than 478 code units the
    content filter passes the marker on unchanged, without a request to the
    oracle. *)
Theorem unreadable_file_becomes_a_marker filePath task st :
  readFileContent filePath = None ->
  (length filePath < 478)%nat ->
  FilterService.taskCache st
    !! FilterService.createCacheKey
         (lit "Error: Could not read " ++ filePath) task = None ->
  FilterService.filterRelevantContent generateText
    (FileService.getFileContent readFileContent filePath) task st
  = (lit "Error: Could not read " ++ filePath, st).
Proof.
  intros Hread Hlen Hmiss. unfold FileService.getFileContent. rewrite Hread.
  unfold FilterService.filterRelevantContent,
    FilterService.contentBeforeAwait.
  rewrite not_blank, Hmiss.
  - destruct (Nat.ltb_spec (length (lit "Error: Could not read " ++ filePath))
                500) as [_|Hlong]; [done|].
    rewrite length_app in Hlong. change (length (lit _)) with 22%nat in Hlong.
    unfold jsstring, char16 in *. lia.
  - by apply (trim_keeps_leading_text 69%N).
Qed.

End UnreadableFile.

(** * The further properties at sample inputs *)

Lemma occurs_false p s :
  occurs p s = false -> forall pre post, s <> pre ++ p ++ post.
Proof.
  intros Hocc pre. revert s Hocc.
  induction pre as [|c pre IH]; intros s Hocc post Heq.
  - destruct s; simpl in Hocc;
      destruct (stripPrefix p _) eqn:Hp; try done;
      (assert (is_Some (stripPrefix p (p ++ post))) as [? Hsome]
         by (rewrite stripPrefix_app; eauto));
      simpl in Heq; rewrite <- Heq in Hsome; congruence.
  - destruct s as [|c' s]; [done|]. injection Heq as -> Heq.
    simpl in Hocc. destruct (stripPrefix p (c :: s)); [done|].
    by eapply IH.
Qed.

Lemma short_content_passes_unchanged_witness :
  FilterService.filterRelevantContent failingOracle (lit "Use tabs.")
    sampleTask freshService
  = (lit "Use tabs.", freshService).
Proof.
  apply short_content_passes_unchanged.
  - by vm_compute.
  - vm_compute. lia.
  - reflexivity.
Defined.

Lemma oracle_answer_is_returned_and_cached_witness :
  exists st',
    FilterService.filterRelevantContent (answering (lit "pruned"))
      longContent sampleTask freshService = (lit "pruned", st')
    /\ FilterService.taskCache st'
         !! FilterService.createCacheKey longContent sampleTask
       = Some (lit "pruned")
    /\ (forall k, k <> FilterService.createCacheKey longContent sampleTask ->
                  FilterService.taskCache st' !! k
                  = FilterService.taskCache freshService !! k)
    /\ FilterService.oracleCalls st'
       = FilterService.oracleCalls freshService
           ++ [{| FilterService.prompt :=
                    FilterService.contentPrompt longContent sampleTask;
                  FilterService.temperature := 0;
                  FilterService.maxTokens := None |}].
Proof.
  apply oracle_answer_is_returned_and_cached.
  - by vm_compute.
  - vm_compute. lia.
  - reflexivity.
  - reflexivity.
Defined.

Lemma colliding_content_gets_cached_text_witness :
  lit "Aa" ++ replicate 498 120%N <> lit "BB" ++ replicate 498 120%N
  /\ exists st1,
       FilterService.filterRelevantContent (answering (lit "pruned"))
         (lit "Aa" ++ replicate 498 120%N) sampleTask freshService
       = (lit "pruned", st1)
       /\ FilterService.filterRelevantContent (answering (lit "pruned"))
            (lit "BB" ++ replicate 498 120%N) sampleTask st1
          = (lit "pruned", st1).
Proof.
  apply (colliding_content_gets_cached_text (answering (lit "pruned"))
           (replicate 498 120%N) sampleTask freshService (lit "pruned")).
  - rewrite length_replicate. lia.
  - reflexivity.
  - reflexivity.
Defined.

Lemma file_filter_asks_once_witness :
  FilterService.oracleCalls
    (snd (FilterService.filterRelevantFiles failingOracle neverParses
            fiveDocs sampleTask freshService))
  = FilterService.oracleCalls freshService
      ++ [{| FilterService.prompt :=
               FilterService.filesPrompt fiveDocs sampleTask;
             FilterService.temperature := 0;
             FilterService.maxTokens := Some 1024 |}].
Proof.
  apply (file_filter_asks_once failingOracle neverParses fiveDocs sampleTask
           freshService).
  simpl. lia.
Defined.

Lemma no_exclusion_keeps_every_file_witness :
  fst (FilterService.filterRelevantFiles (answering (lit "[]"))
         parsesEmptyList fiveDocs sampleTask freshService)
  = map FilterService.stamp fiveDocs.
Proof.
  apply (no_exclusion_keeps_every_file (answering (lit "[]")) parsesEmptyList
           fiveDocs sampleTask freshService (lit "[]") (lit "[]") []).
  - simpl. lia.
  - reflexivity.
  - by vm_compute.
  - by vm_compute.
  - constructor.
Defined.

Lemma formatOutput_app_witness :
  FormatterService.formatOutput
    ([shortResult "a.md"] ++ [shortResult "b.md"])
  = FormatterService.formatOutput [shortResult "a.md"] ++ lit "---

" ++ FormatterService.formatOutput [shortResult "b.md"].
Proof. by apply formatOutput_app. Defined.

Lemma sampleDocument_noFence : noFence (lit "title: Logging rules").
Proof. unfold noFence. apply (occurs_false fence). by vm_compute. Qed.

Lemma getFileContent_strips_only_a_header_witness :
  exists header,
    sampleDocument
    = header ++ FileService.getFileContent sampleFiles (lit "/docs/a.md")
    /\ (header = [] \/ exists mid, header = lit "---" ++ mid ++ [10%N]).
Proof.
  apply (getFileContent_strips_only_a_header sampleFiles (lit "/docs/a.md")).
  by vm_compute.
Defined.

Lemma no_header_no_metadata_witness :
  FileService.extractMetadata lastSegment sampleFiles (lit "/docs/gone.md")
  = {| filename := lastSegment (lit "/docs/gone.md");
       path := lit "/docs/gone.md";
       title := None; tags := None; relevanceScore := None |}.
Proof.
  apply no_header_no_metadata. left. by vm_compute.
Defined.

Lemma metadata_is_trimmed_witness :
  trim (lit "Logging rules") = lit "Logging rules".
Proof.
  apply (metadata_is_trimmed lastSegment sampleFiles (lit "/docs/a.md")).
  by vm_compute.
Defined.

Lemma spacedDocument_noFence : noFence (lit "tags: [style, go]").
Proof. unfold noFence. apply (occurs_false fence). by vm_compute. Qed.

Lemma usual_header_is_removed_witness :
  FileService.getFileContent sampleFiles (lit "/docs/b.md") = lit "# Style".
Proof.
  apply (usual_header_is_removed sampleFiles (lit "/docs/b.md") 116%N
           (lit "ags: [style, go]") [32%N; 32%N; 10%N] [] (lit "# Style")).
  - reflexivity.
  - apply spacedDocument_noFence.
  - by repeat constructor.
  - constructor.
  - apply not_elem_of_nil.
  - reflexivity.
  - by vm_compute.
Defined.

Lemma title_line_is_reported_witness :
  title (FileService.extractMetadata lastSegment sampleFiles
           (lit "/docs/a.md"))
  = Some (trim (lit "Logging rules")).
Proof.
  apply (title_line_is_reported lastSegment sampleFiles (lit "/docs/a.md")
           76%N (lit "ogging rules") [] (lit "# Logging")).
  - reflexivity.
  - vm_compute. repeat constructor.
  - exact I.
  - apply sampleDocument_noFence.
  - reflexivity.
  - by vm_compute.
Defined.

Lemma discovery_finds_the_markdown_files_witness :
  FileService.getMarkdownFiles slashJoin (lit "docs") (Some sampleTree)
  = Some [lit "docs/a.md"; lit "docs/sub/b.mdc"]
  /\ forall p,
       p ∈ [lit "docs/a.md"; lit "docs/sub/b.mdc"]
       <-> located slashJoin (lit "docs") sampleTree p.
Proof.
  split; [by vm_compute|].
  apply (discovery_finds_the_markdown_files slashJoin (lit "docs") sampleTree).
  by vm_compute.
Defined.

Lemma unreadable_file_becomes_a_marker_witness :
  FilterService.filterRelevantContent failingOracle
    (FileService.getFileContent sampleFiles (lit "/docs/gone.md"))
    sampleTask freshService
  = (lit "Error: Could not read " ++ lit "/docs/gone.md", freshService).
Proof.
  apply unreadable_file_becomes_a_marker.
  - by vm_compute.
  - vm_compute. lia.
  - reflexivity.
Defined.

(** The second file completes while the first is still being read. *)
Lemma second_done_while_first_reads :
  rtc (CodeRulesHandler.step shortReader twoDocs sampleTask)
    (CodeRulesHandler.initial twoDocs ∅) secondDone.
Proof.
  eapply rtc_l.
  { apply (CodeRulesHandler.step_start _ _ _ _ 0%nat [1]%nat);
      [reflexivity|].
    unfold CodeRulesHandler.admits, CodeRulesHandler.concurrency. simpl. lia. }
  eapply rtc_l.
  { apply (CodeRulesHandler.step_start _ _ _ _ 1%nat []);
      [reflexivity|].
    unfold CodeRulesHandler.admits, CodeRulesHandler.concurrency. simpl. lia. }
  eapply rtc_l.
  { apply (CodeRulesHandler.step_read_return _ _ _ _
             [(0%nat, CodeRulesHandler.Reading)] [] 1%nat (doc "b.md")
             (lit "Use tabs."));
      [reflexivity|reflexivity|]. vm_compute. reflexivity. }
  apply rtc_refl.
Defined.

Lemma first_done_later :
  rtc (CodeRulesHandler.step shortReader twoDocs sampleTask)
    secondDone bothDone.
Proof.
  eapply rtc_l.
  { apply (CodeRulesHandler.step_read_return _ _ _ _
             [] [] 0%nat (doc "a.md") (lit "Use tabs."));
      [reflexivity|reflexivity|]. vm_compute. reflexivity. }
  apply rtc_refl.
Defined.

Lemma stored_values_stay_witness :
  CodeRulesHandler.values bothDone !! 1%nat = Some (Some (shortResult "b.md")).
Proof.
  apply (stored_values_stay shortReader twoDocs sampleTask ∅ secondDone
           bothDone 1%nat (shortResult "b.md")).
  - apply second_done_while_first_reads.
  - apply first_done_later.
  - reflexivity.
Defined.

Lemma settled_documents_are_determined_witness :
  CodeRulesHandler.cache bothDone = ∅
  /\ CodeRulesHandler.Promise_all (CodeRulesHandler.values bothDone)
     = Some (map (immediateResult ∅ shortReader sampleTask) twoDocs).
Proof.
  apply (settled_documents_are_determined shortReader twoDocs sampleTask).
  - intros f _. exists (lit "Use tabs."). by vm_compute.
  - etrans; [apply second_done_while_first_reads|apply first_done_later].
  - by split.
Defined.

(** X23. The formatter of the earlier [CodeRulesService] returns the empty
    string for the empty list, and agrees with [FormatterService] on
    exactly the non-empty lists. *)
Theorem formatters_agree_unless_empty :
  CodeRulesService.formatOutput [] = []
  /\ forall contents,
       CodeRulesService.formatOutput contents
       = FormatterService.formatOutput contents
       <-> contents <> [].
Proof.
  split; [reflexivity|]. intros [|item rest].
  - split; [|done]. by vm_compute.
  - split; [done|]. intros _. apply legacy_formatOutput.
Qed.

(** ** The file service on small inputs *)

Example metadata_of_a_header :
  FileService.extractMetadata lastSegment
    (fun _ => Some (withHeader (lit "title:  Logging rules
tags: [go, style ,  logs]") (lit "# Logging")))
    (lit "/docs/logging.md")
  = {| filename := lit "logging.md"; path := lit "/docs/logging.md";
       title := Some (lit "Logging rules");
       tags := Some [lit "go"; lit "style"; lit "logs"];
       relevanceScore := None |}.
Proof. vm_compute. reflexivity. Qed.

(** An empty tag list is reported as one empty tag. *)
Example empty_tag_list :
  tags (FileService.extractMetadata lastSegment
          (fun _ => Some (withHeader (lit "tags: []") (lit "# Logging")))
          (lit "/docs/logging.md"))
  = Some [[]].
Proof. vm_compute. reflexivity. Qed.

(** The title pattern is not tied to the start of a line. *)
Example subtitle_read_as_title :
  title (FileService.extractMetadata lastSegment
           (fun _ => Some (withHeader (lit "subtitle: Notes") (lit "# Logging")))
           (lit "/docs/logging.md"))
  = Some (lit "Notes").
Proof. vm_compute. reflexivity. Qed.

(** With an empty header the greedy white space takes the closing dashes'
    line feed, and the block runs on to the next line of three dashes. *)
Example empty_header_runs_on :
  FileService.removeFrontmatter (lit "---

---
intro
---
rules")
  = lit "rules".
Proof. vm_compute. reflexivity. Qed.

Example discovery_of_the_sample_tree :
  FileService.getMarkdownFiles slashJoin (lit "docs") (Some sampleTree)
  = Some [lit "docs/a.md"; lit "docs/sub/b.mdc"].
Proof. vm_compute. reflexivity. Qed.
